(** * Task reminder agent: due detection and reminder escalation

    A shallow embedding of [src/utils.ts] (frequency parsing, due
    evaluation), of [src/workflows/task-reminder-workflow.ts] (the
    escalation workflow and the batch workflow) and of the part of
    [src/server.ts] that answers the workflows, with the properties the
    specification states about them.

    Conventions of the embedding.
    - A JavaScript string is the list of its UTF-16 code units.
    - A JavaScript number is an integer of [Z]; the code only produces
      integers on the paths studied here ([parseInt], products, [Math.floor]),
      and the embedding is exact below 2^53, where a double holds every
      integer.  [parseFrequencyToDays] divides two doubles: the embedding
      keeps the operands of the division and does not compute the rounded
      quotient.
    - A [Date] is its time value, milliseconds since the epoch.
    - A thrown value is a value of [Thrown]; a computation that may throw
      returns a [Completion].
    - A workflow is a function from the trace of its events so far to a
      completion and the extended trace.  What the outside answers (the
      notifier, the task store, the creation of instances, the clock) is a
      [Host], whose answers may depend on the whole trace.
    - A wait is recorded with the number the code passes to
      [step.sleep].  The unit of that number belongs to the Workflows
      runtime, which is not part of the code; no theorem reads a unit into
      it.  The clocks of the example hosts advance by that number of
      milliseconds. *)

From Stdlib Require Import List ZArith NArith Bool Lia String Ascii.
Import ListNotations.

(** ** JavaScript strings *)

Module Js.

Definition code_unit := N.
Definition jsstring := list code_unit.

(** An ASCII literal as a JavaScript string. *)
Definition str (s : string) : jsstring :=
  map N_of_ascii (list_ascii_of_string s).

(** The double quote, U+0022. *)
Definition dquote : code_unit := 34%N.

(** [a === b] on strings. *)
Fixpoint jsstring_eqb (a b : jsstring) : bool :=
  match a, b with
  | [], [] => true
  | x :: a', y :: b' => (x =? y)%N && jsstring_eqb a' b'
  | _, _ => false
  end.

(** [\d] of a regular expression: U+0030 to U+0039. *)
Definition is_digit (c : code_unit) : bool :=
  ((48 <=? c) && (c <=? 57))%N.

(** [\s] of a regular expression, which is also what [String.prototype.trim]
    removes: WhiteSpace and LineTerminator of ECMA-262. *)
Definition is_whitespace (c : code_unit) : bool :=
  (((9 <=? c) && (c <=? 13))
   || (c =? 32) || (c =? 160) || (c =? 5760)
   || ((8192 <=? c) && (c <=? 8202))
   || (c =? 8232) || (c =? 8233) || (c =? 8239) || (c =? 8287)
   || (c =? 12288) || (c =? 65279))%N.

Definition is_ascii_lower (c : code_unit) : bool := ((97 <=? c) && (c <=? 122))%N.
Definition is_ascii_upper (c : code_unit) : bool := ((65 <=? c) && (c <=? 90))%N.

Definition is_ascii_letter (c : code_unit) : bool :=
  is_ascii_lower c || is_ascii_upper c.

(** Canonicalize of a regular expression with flag [i] and without flag
    [u], on the code units that can be equal to a canonicalized ASCII
    letter: a code unit of 128 or more is never mapped below 128, so only
    the two cases of an ASCII letter reach it. *)
Definition canonicalize (c : code_unit) : code_unit :=
  if is_ascii_lower c then (c - 32)%N else c.

(** [toLowerCase] on the code units of an ASCII word. *)
Definition to_lower_unit (c : code_unit) : code_unit :=
  if is_ascii_upper c then (c + 32)%N else c.

Definition toLowerCase (s : jsstring) : jsstring := map to_lower_unit s.

(** Case-insensitive match of a whole string against a literal word. *)
Fixpoint ci_equal (word s : jsstring) : bool :=
  match word, s with
  | [], [] => true
  | w :: word', c :: s' => (canonicalize w =? canonicalize c)%N && ci_equal word' s'
  | _, _ => false
  end.

(** Case-insensitive match of a literal word at the start of a string;
    returns what follows. *)
Fixpoint ci_strip_prefix (word s : jsstring) : option jsstring :=
  match word, s with
  | [], _ => Some s
  | w :: word', c :: s' =>
      if (canonicalize w =? canonicalize c)%N then ci_strip_prefix word' s' else None
  | _ :: _, [] => None
  end.

(** The longest prefix whose code units satisfy [p], and the rest. *)
Fixpoint span (p : code_unit -> bool) (s : jsstring) : jsstring * jsstring :=
  match s with
  | [] => ([], [])
  | c :: s' => if p c then let (a, b) := span p s' in (c :: a, b) else ([], s)
  end.

Fixpoint drop_while (p : code_unit -> bool) (s : jsstring) : jsstring :=
  match s with
  | [] => []
  | c :: s' => if p c then drop_while p s' else s
  end.

(** [stops p s]: [s] is empty or starts with a code unit that fails [p];
    this is where a span of [p] ends. *)
Definition stops (p : code_unit -> bool) (s : jsstring) : Prop :=
  match s with
  | [] => True
  | c :: _ => p c = false
  end.

(** [s.startsWith(prefix)]: what follows the prefix. *)
Fixpoint strip_prefix (prefix s : jsstring) : option jsstring :=
  match prefix, s with
  | [], _ => Some s
  | x :: prefix', c :: s' => if (x =? c)%N then strip_prefix prefix' s' else None
  | _ :: _, [] => None
  end.

(** The first occurrence of a separator in a string: what is before it
    and what is after it. *)
Fixpoint cut (sep s : jsstring) : option (jsstring * jsstring) :=
  match strip_prefix sep s with
  | Some rest => Some ([], rest)
  | None =>
      match s with
      | [] => None
      | c :: s' =>
          match cut sep s' with
          | Some (before, rest) => Some (c :: before, rest)
          | None => None
          end
      end
  end.

(** [s.split(sep)[1]] for a separator that is not empty: [None] is
    [undefined]. *)
Definition split_second (sep s : jsstring) : option jsstring :=
  match cut sep s with
  | None => None
  | Some (_, rest) =>
      match cut sep rest with
      | None => Some rest
      | Some (second, _) => Some second
      end
  end.

(** The code units a URL keeps as they are in a path and that neither end
    a path segment nor make a dot segment: ASCII letters, digits, "-" and
    "_". *)
Definition is_url_safe (c : code_unit) : bool :=
  is_ascii_lower c || is_ascii_upper c || is_digit c || (c =? 45)%N || (c =? 95)%N.

(** [String.prototype.trim]. *)
Definition trim (s : jsstring) : jsstring :=
  rev (drop_while is_whitespace (rev (drop_while is_whitespace s))).

(** [parseInt(s, 10)] on a string of decimal digits: the integer the digits
    denote, which is also what the code gets while it is below 2^53. *)
Definition digit_value (c : code_unit) : Z := Z.of_N (c - 48).

Definition parseInt (s : jsstring) : Z :=
  fold_left (fun acc c => 10 * acc + digit_value c)%Z s 0%Z.

(** Number-to-string conversion of a natural number: its decimal digits,
    most significant first. *)
Fixpoint decimal_digits (fuel : nat) (n : N) (acc : jsstring) : jsstring :=
  let acc' := (48 + n mod 10)%N :: acc in
  match fuel with
  | O => acc'
  | S fuel' => if (n <? 10)%N then acc' else decimal_digits fuel' (n / 10)%N acc'
  end.

Definition N_toString (n : N) : jsstring :=
  decimal_digits (N.to_nat (N.size n)) n [].

(** Number-to-string conversion of an integer. *)
Definition Number_toString (z : Z) : jsstring :=
  match z with
  | Zneg p => 45%N :: N_toString (Npos p)
  | _ => N_toString (Z.to_N z)
  end.

End Js.

Import Js.

(** ** Completions: a value or a thrown value *)

Inductive Thrown : Type :=
| ThrownError (message : jsstring)   (* an instance of Error *)
| ThrownOther.                       (* any other thrown value *)

Inductive Completion (A : Type) : Type :=
| Normal (a : A)
| Throw (e : Thrown).

Arguments Normal {A} a.
Arguments Throw {A} e.

(** [error instanceof Error ? error.message : 'Unknown error'] *)
Definition error_message (e : Thrown) : jsstring :=
  match e with
  | ThrownError m => m
  | ThrownOther => str "Unknown error"
  end.

(** ** [src/utils.ts]: frequency parsing and due evaluation *)

Module Utils.

Record Task : Type := {
  id : jsstring;
  name : jsstring;
  frequency : jsstring;
  lastCompleted : option Z;
  createdAt : Z
}.

(** What a function of [utils.ts] can read besides its arguments: the wall
    clock behind [Date.now()], and the state of the agent that calls it. *)
Record World : Type := {
  Date_now : Z;
  tasks : list Task;
  messages : list jsstring
}.

(** [frequency.replace(/^every\s+/i, "")] *)
Definition replace_every (frequency : jsstring) : jsstring :=
  match ci_strip_prefix (str "every") frequency with
  | Some rest =>
      match span is_whitespace rest with
      | ([], _) => frequency
      | (_ :: _, rest') => rest'
      end
  | None => frequency
  end.

Definition unit_words : list jsstring :=
  map str ["second"; "seconds"; "minute"; "minutes"; "hour"; "hours";
           "day"; "days"; "week"; "weeks"; "month"; "months"]%string.

(** [s.match(/^(\d+)\s*(second|seconds|...|month|months)$/i)]: the two
    capture groups, or [None] for [null]. *)
Definition match_frequency (s : jsstring) : option (jsstring * jsstring) :=
  let (digits, rest) := span is_digit s in
  match digits with
  | [] => None
  | _ :: _ =>
      let word := drop_while is_whitespace rest in
      if existsb (fun w => ci_equal w word) unit_words
      then Some (digits, word) else None
  end.

Definition invalid_format (frequency : jsstring) : Thrown :=
  ThrownError
    (str "Invalid frequency format: " ++ frequency
     ++ str ". Use format like " ++ dquote :: str "1 second" ++ dquote :: str ", "
     ++ dquote :: str "30 minutes" ++ dquote :: str ", "
     ++ dquote :: str "2 hours" ++ dquote :: str ", "
     ++ dquote :: str "7 days" ++ dquote :: str ", or "
     ++ dquote :: str "2 weeks" ++ [dquote]).

Definition unsupported_unit (unit : jsstring) : Thrown :=
  ThrownError (str "Unsupported frequency unit: " ++ unit).

Definition is_word (unit : jsstring) (w : string) : bool :=
  jsstring_eqb unit (str w).

(** The number [parseFrequencyToDays] returns: an integer, or the quotient
    of a double division, of which the operands are kept. *)
Inductive Days : Type :=
| WholeDays (days : Z)
| DividedDays (value divisor : Z).

Definition parseFrequencyToDays (frequency : jsstring) : Completion Days :=
  let normalizedFrequency := trim (replace_every frequency) in
  match match_frequency normalizedFrequency with
  | None => Throw (invalid_format frequency)
  | Some (m1, m2) =>
      let value := parseInt m1 in
      let unit := toLowerCase m2 in
      if is_word unit "second" || is_word unit "seconds"
      then Normal (DividedDays value (24 * 60 * 60))
      else if is_word unit "minute" || is_word unit "minutes"
      then Normal (DividedDays value (24 * 60))
      else if is_word unit "hour" || is_word unit "hours"
      then Normal (DividedDays value 24)
      else if is_word unit "day" || is_word unit "days"
      then Normal (WholeDays value)
      else if is_word unit "week" || is_word unit "weeks"
      then Normal (WholeDays (value * 7))
      else if is_word unit "month" || is_word unit "months"
      then Normal (WholeDays (value * 30))
      else Throw (unsupported_unit unit)
  end.

Definition parseFrequencyToMilliseconds (frequency : jsstring) : Completion Z :=
  let normalizedFrequency := trim (replace_every frequency) in
  match match_frequency normalizedFrequency with
  | None => Throw (invalid_format frequency)
  | Some (m1, m2) =>
      let value := parseInt m1 in
      let unit := toLowerCase m2 in
      if is_word unit "second" || is_word unit "seconds"
      then Normal (value * 1000)%Z
      else if is_word unit "minute" || is_word unit "minutes"
      then Normal (value * 60 * 1000)%Z
      else if is_word unit "hour" || is_word unit "hours"
      then Normal (value * 60 * 60 * 1000)%Z
      else if is_word unit "day" || is_word unit "days"
      then Normal (value * 24 * 60 * 60 * 1000)%Z
      else if is_word unit "week" || is_word unit "weeks"
      then Normal (value * 7 * 24 * 60 * 60 * 1000)%Z
      else if is_word unit "month" || is_word unit "months"
      then Normal (value * 30 * 24 * 60 * 60 * 1000)%Z
      else Throw (unsupported_unit unit)
  end.

(** [task.lastCompleted || task.createdAt]: a [Date] object is truthy. *)
Definition referenceDate (task : Task) : Z :=
  match lastCompleted task with
  | Some d => d
  | None => createdAt task
  end.

Definition isTaskDue (task : Task) (w : World) : Completion bool :=
  match parseFrequencyToMilliseconds (frequency task) with
  | Throw e => Throw e
  | Normal frequencyMs =>
      let timeSinceReference := (Date_now w - referenceDate task)%Z in
      Normal (frequencyMs <=? timeSinceReference)%Z
  end.

(** [Math.floor(x / d)] for a positive [d] is [Z.div]. *)
Definition getDaysOverdue (task : Task) (w : World) : Completion Z :=
  match parseFrequencyToMilliseconds (frequency task) with
  | Throw e => Throw e
  | Normal frequencyMs =>
      let timeSinceReference := (Date_now w - referenceDate task)%Z in
      let daysOverdue :=
        ((timeSinceReference - frequencyMs) / (1000 * 60 * 60 * 24))%Z in
      Normal daysOverdue
  end.

End Utils.

Import Utils.

(** ** [src/workflows/task-reminder-workflow.ts] *)

Module Workflows.

Inductive ReminderLevel : Type := initial | followup | escalation.

Record TaskReminderParams : Type := {
  taskId : jsstring;
  taskName : jsstring;
  frequency : jsstring;
  reminderLevel : ReminderLevel;
  dueDate : Z;                  (* the instant whose ISO rendering is passed *)
  daysOverdue : option Z        (* [daysOverdue?: number] *)
}.

(** The parameter object of [sendReminderMessage]. *)
Record SendParams : Type := {
  sp_taskId : jsstring;
  sp_taskName : jsstring;
  sp_frequency : jsstring;
  sp_reminderLevel : ReminderLevel;
  sp_daysOverdue : Z
}.

(** The body posted to [/internal/add-reminder]. *)
Record ReminderRequest : Type := {
  messageId : jsstring;
  text : jsstring;
  rq_taskId : jsstring;
  rq_reminderLevel : ReminderLevel;
  rq_createdAt : Z
}.

Record Response : Type := { ok : bool; statusText : jsstring }.

(** The response of [/internal/check-task/<id>]: its status and the
    [isDue] field of its body. *)
Record CheckResponse : Type := { check_ok : bool; isDue : bool }.

(** An element of [dueTasks]. *)
Record DueTask : Type := {
  dt_id : jsstring;
  dt_name : jsstring;
  dt_frequency : jsstring;
  dt_daysOverdue : Z
}.

Record CreateOptions : Type := {
  co_id : jsstring;
  co_params : TaskReminderParams
}.

(** What the workflow does to the outside, in the order it does it. *)
Inductive Event : Type :=
| SendReminder (p : SendParams) (rq : ReminderRequest) (resp : Response)
| CheckTask (task : jsstring) (resp : CheckResponse)
| Sleep (step : jsstring) (duration : Z)
| Create (options : CreateOptions) (outcome : Completion jsstring).

Definition Trace := list Event.

(** The environment of a workflow instance.  Each answer may depend on
    everything that happened before it. *)
Record Host : Type := {
  step_retries : nat;           (* retries [step.do] grants a failing step *)
  generateId : Trace -> jsstring;
  Date_now : Trace -> Z;
  add_reminder : Trace -> ReminderRequest -> Response;
  check_task : Trace -> jsstring -> CheckResponse;
  create : Trace -> CreateOptions -> Completion jsstring
}.

(** A workflow computation: from the trace so far to a completion and the
    extended trace.  A throw keeps the trace. *)
Definition M (A : Type) : Type := Trace -> Completion A * Trace.

Definition ret {A} (a : A) : M A := fun tr => (Normal a, tr).

Definition bind {A B} (m : M A) (k : A -> M B) : M B :=
  fun tr =>
    match m tr with
    | (Normal a, tr') => k a tr'
    | (Throw e, tr') => (Throw e, tr')
    end.

Definition try_catch {A} (m : M A) (handler : Thrown -> M A) : M A :=
  fun tr =>
    match m tr with
    | (Normal a, tr') => (Normal a, tr')
    | (Throw e, tr') => handler e tr'
    end.

Definition emit (e : Event) : M unit := fun tr => (Normal tt, tr ++ [e]).

Declare Scope wf_scope.
Delimit Scope wf_scope with wf.
Notation "x <- m ;; k" := (bind m (fun x => k))
  (at level 61, m at next level, right associativity) : wf_scope.
Notation "m ;; k" := (bind m (fun _ => k))
  (at level 61, right associativity) : wf_scope.
Local Open Scope wf_scope.

(** [daysOverdue || 0] *)
Definition or_zero (d : option Z) : Z :=
  match d with
  | Some v => v
  | None => 0
  end.

Definition emoji (level : ReminderLevel) : jsstring :=
  match level with
  | escalation => [55357; 57000]%N    (* U+1F6A8 *)
  | followup => [9200]%N              (* U+23F0 *)
  | initial => [55357; 56596]%N       (* U+1F514 *)
  end.

(** [daysOverdue !== 1 ? 's' : ''] *)
Definition plural_s (d : Z) : jsstring :=
  if (d =? 1)%Z then [] else str "s".

Definition reminderText (p : SendParams) : jsstring :=
  match sp_reminderLevel p with
  | initial =>
      emoji initial ++ str " Reminder: " ++ dquote :: sp_taskName p
      ++ dquote :: str " is due. Frequency: " ++ sp_frequency p ++ str "."
  | followup =>
      emoji followup ++ str " Follow-up: " ++ dquote :: sp_taskName p
      ++ dquote :: str " is still due (" ++ Number_toString (sp_daysOverdue p)
      ++ str " day" ++ plural_s (sp_daysOverdue p)
      ++ str " overdue). Don't forget!"
  | escalation =>
      emoji escalation ++ str " URGENT: " ++ dquote :: sp_taskName p
      ++ dquote :: str " is " ++ Number_toString (sp_daysOverdue p)
      ++ str " day" ++ plural_s (sp_daysOverdue p)
      ++ str " overdue! Please complete this task soon."
  end.

Section Steps.

Variable host : Host.

(** [step.do(name, body)]: the body is run again while it throws and the
    host still grants a retry. *)
Fixpoint attempts {A} (retries : nat) (body : M A) : M A :=
  fun tr =>
    match body tr with
    | (Normal a, tr') => (Normal a, tr')
    | (Throw e, tr') =>
        match retries with
        | O => (Throw e, tr')
        | S retries' => attempts retries' body tr'
        end
    end.

Definition step_do {A} (name : string) (body : M A) : M A :=
  attempts (step_retries host) body.

Definition step_sleep (name : string) (duration : Z) : M unit :=
  emit (Sleep (str name) duration).

End Steps.

End Workflows.

Import Workflows.
Local Open Scope wf_scope.

(** *** [class TaskReminderWorkflow] *)

Module TaskReminderWorkflow.

Section WithHost.

Variable host : Host.

Definition sendReminderMessage (p : SendParams) : M jsstring :=
  fun tr =>
    let reminderText := reminderText p in
    let messageId := generateId host tr in
    let rq := {| messageId := messageId;
                 text := reminderText;
                 rq_taskId := sp_taskId p;
                 rq_reminderLevel := sp_reminderLevel p;
                 rq_createdAt := Date_now host tr |} in
    let response := add_reminder host tr rq in
    let tr' := tr ++ [SendReminder p rq response] in
    if negb (ok response)
    then (Throw (ThrownError (str "Failed to send reminder: "
                              ++ statusText response)), tr')
    else (Normal messageId, tr').

Definition checkTaskStillDue (task : jsstring) : M bool :=
  fun tr =>
    let response := check_task host tr task in
    let tr' := tr ++ [CheckTask task response] in
    if negb (check_ok response)
    then (Normal true, tr')     (* assume still due if we can't check *)
    else (Normal (isDue response), tr').

(** The two objects [TaskReminderWorkflow.run] returns. *)
Inductive RunResult : Type :=
| RunCompleted (task : jsstring) (level : ReminderLevel)  (* success: true *)
| RunFailed (task : jsstring) (error : jsstring).         (* success: false *)

Definition send_params (payload : TaskReminderParams)
    (level : ReminderLevel) (d : Z) : SendParams :=
  {| sp_taskId := taskId payload;
     sp_taskName := taskName payload;
     sp_frequency := frequency payload;
     sp_reminderLevel := level;
     sp_daysOverdue := d |}.

Definition run (payload : TaskReminderParams) : M RunResult :=
  try_catch
    (step_do host "send-reminder"
       (sendReminderMessage
          (send_params payload (reminderLevel payload)
             (or_zero (daysOverdue payload)))) ;;
     match reminderLevel payload with
     | initial =>
         step_sleep "wait-for-followup" (24 * 60 * 60) ;;
         stillDue <- step_do host "check-if-still-due"
                       (checkTaskStillDue (taskId payload)) ;;
         if stillDue : bool then
           step_do host "send-followup"
             (sendReminderMessage
                (send_params payload followup
                   (or_zero (daysOverdue payload) + 1))) ;;
           step_sleep "wait-for-escalation" (48 * 60 * 60) ;;
           stillDueAfterFollowup <-
             step_do host "check-if-still-due-after-followup"
               (checkTaskStillDue (taskId payload)) ;;
           if stillDueAfterFollowup : bool then
             step_do host "send-escalation"
               (sendReminderMessage
                  (send_params payload escalation
                     (or_zero (daysOverdue payload) + 3))) ;;
             ret tt
           else ret tt
         else ret tt
     | _ => ret tt
     end ;;
     ret (RunCompleted (taskId payload) (reminderLevel payload)))
    (fun error => ret (RunFailed (taskId payload) (error_message error))).

End WithHost.

End TaskReminderWorkflow.

(** *** [class BatchTaskReminderWorkflow] *)

Module BatchTaskReminderWorkflow.

(** An element of [results]: what one launch attempt returned. *)
Record LaunchResult : Type := {
  lr_taskId : jsstring;
  lr_workflowId : option jsstring;
  lr_success : bool;
  lr_error : option jsstring
}.

(** The two objects [BatchTaskReminderWorkflow.run] returns. *)
Inductive BatchResult : Type :=
| NothingToProcess (message : jsstring)      (* success: true, processed: 0 *)
| Processed (processed successful failed : nat) (timestamp : Z).

Definition lift {A} (c : Completion A) : M A := fun tr => (c, tr).

(** [Promise.all(l.map(async (a) => ...))]: every callback is started, in
    the order of the array; the result keeps that order and rejects with
    the first rejection. *)
Fixpoint promise_all_map {A B} (f : A -> M B) (l : list A) : M (list B) :=
  fun tr =>
    match l with
    | [] => (Normal [], tr)
    | a :: l' =>
        let (r, tr1) := f a tr in
        let (rs, tr2) := promise_all_map f l' tr1 in
        (match r, rs with
         | Normal b, Normal bs => Normal (b :: bs)
         | Throw e, _ => Throw e
         | Normal _, Throw e => Throw e
         end, tr2)
    end.

(** [l.filter((a, index) => keep(a, index))], where [keep] may throw. *)
Fixpoint filter_indexed {A} (keep : A -> nat -> Completion bool)
    (l : list A) (index : nat) : Completion (list A) :=
  match l with
  | [] => Normal []
  | a :: l' =>
      match keep a index with
      | Throw e => Throw e
      | Normal b =>
          match filter_indexed keep l' (S index) with
          | Throw e => Throw e
          | Normal rest => Normal (if b then a :: rest else rest)
          end
      end
  end.

(** [!results[index].success]; an index outside [results] reads a
    property of [undefined]. *)
Definition not_success (results : list LaunchResult) (index : nat)
    : Completion bool :=
  match nth_error results index with
  | Some r => Normal (negb (lr_success r))
  | None =>
      Throw (ThrownError
               (str "Cannot read properties of undefined (reading 'success')"))
  end.

Section WithHost.

Variable host : Host.

(** The body of the callbacks of both passes; they differ in the prefix
    of the instance id. *)
Definition launch (prefix : string) (task : DueTask) : M LaunchResult :=
  fun tr =>
    let options :=
      {| co_id := str prefix ++ dt_id task ++ str "-"
                  ++ Number_toString (Date_now host tr);
         co_params := {| taskId := dt_id task;
                         taskName := dt_name task;
                         frequency := dt_frequency task;
                         reminderLevel := initial;
                         dueDate := Date_now host tr;
                         daysOverdue := Some (dt_daysOverdue task) |} |} in
    let outcome := create host tr options in
    let tr' := tr ++ [Create options outcome] in
    match outcome with
    | Normal workflowInstance =>
        (Normal {| lr_taskId := dt_id task;
                   lr_workflowId := Some workflowInstance;
                   lr_success := true;
                   lr_error := None |}, tr')
    | Throw error =>
        (Normal {| lr_taskId := dt_id task;
                   lr_workflowId := None;
                   lr_success := false;
                   lr_error := Some (error_message error) |}, tr')
    end.

Definition run (dueTasks : option (list DueTask)) : M BatchResult :=
  match dueTasks with
  | None | Some [] => ret (NothingToProcess (str "No tasks to process"))
  | Some dueTasks =>
      results <- step_do host "process-batch"
                   (promise_all_map (launch "reminder-") dueTasks) ;;
      let successful := List.length (filter lr_success results) in
      let failed := List.length (filter (fun r => negb (lr_success r)) results) in
      (if (0 <? failed)%nat then
         step_sleep "retry-delay" 300 ;;
         failedTasks <-
           lift (filter_indexed (fun _ index => not_success results index)
                   dueTasks 0) ;;
         step_do host "retry-failed"
           (promise_all_map (launch "reminder-retry-") failedTasks) ;;
         ret tt
       else ret tt) ;;
      fun tr =>
        (Normal (Processed (List.length dueTasks) successful failed
                   (Date_now host tr)), tr)
  end.

End WithHost.

End BatchTaskReminderWorkflow.

(** ** [src/server.ts]: what the agent gives to the workflows *)

Module Server.

(** The handler of [GET /internal/check-task/<taskId>]: the status of its
    response and the [isDue] field of its body. *)
Definition check_task_endpoint (w : World) (taskId : jsstring) : CheckResponse :=
  match find (fun t => jsstring_eqb (Utils.id t) taskId) (tasks w) with
  | None => {| check_ok := true; isDue := false |}   (* isDue: false, found: false *)
  | Some task =>
      match isTaskDue task w with
      | Normal due => {| check_ok := true; isDue := due |}
      | Throw _ => {| check_ok := false; isDue := true |}   (* status 500 *)
      end
  end.

(** The path of the URL [http://agent/internal/check-task/${taskId}] that
    [checkTaskStillDue] requests, for an id of code units that the URL
    keeps as they are. *)
Definition check_task_pathname (taskId : jsstring) : jsstring :=
  str "/internal/check-task/" ++ taskId.

(** [fetch] on a [GET] request, from the path of its URL: [None] when the
    request goes to the parent handler.  The id is
    [url.pathname.split("/internal/check-task/")[1]]; no task has the id
    [undefined]. *)
Definition fetch_check_task (w : World) (pathname : jsstring) : option CheckResponse :=
  match strip_prefix (str "/internal/check-task/") pathname with
  | None => None
  | Some _ =>
      match split_second (str "/internal/check-task/") pathname with
      | Some taskId => Some (check_task_endpoint w taskId)
      | None => Some {| check_ok := true; isDue := false |}
      end
  end.

(** [tasks.filter((task) => isTaskDue(task))] *)
Fixpoint filter_due (w : World) (ts : list Task) : Completion (list Task) :=
  match ts with
  | [] => Normal []
  | task :: ts' =>
      match isTaskDue task w with
      | Throw e => Throw e
      | Normal due =>
          match filter_due w ts' with
          | Throw e => Throw e
          | Normal rest => Normal (if due then task :: rest else rest)
          end
      end
  end.

(** [dueTasks.map((task) => ({ id, name, frequency, daysOverdue:
    getDaysOverdue(task) }))] *)
Fixpoint snapshot (w : World) (dueTasks : list Task) : Completion (list DueTask) :=
  match dueTasks with
  | [] => Normal []
  | task :: rest =>
      match getDaysOverdue task w with
      | Throw e => Throw e
      | Normal days =>
          match snapshot w rest with
          | Throw e => Throw e
          | Normal rest' =>
              Normal ({| dt_id := Utils.id task;
                         dt_name := Utils.name task;
                         dt_frequency := Utils.frequency task;
                         dt_daysOverdue := days |} :: rest')
          end
      end
  end.

(** The batch [checkAndRemindTasks] dispatches: [None] when no task is
    due, in which case it does nothing. *)
Definition dispatched_batch (w : World) : Completion (option (list DueTask)) :=
  match filter_due w (tasks w) with
  | Throw e => Throw e
  | Normal [] => Normal None
  | Normal dueTasks =>
      match snapshot w dueTasks with
      | Throw e => Throw e
      | Normal batch => Normal (Some batch)
      end
  end.

End Server.

(** ** Vocabulary of the properties *)

Module Spec.

(** *** Frequency expressions *)

Inductive TimeUnit : Type := second | minute | hour | day | week | month.

Definition singular (u : TimeUnit) : jsstring :=
  match u with
  | second => str "second"
  | minute => str "minute"
  | hour => str "hour"
  | day => str "day"
  | week => str "week"
  | month => str "month"
  end.

Definition plural (u : TimeUnit) : jsstring := singular u ++ str "s".

Definition hour_ms : Z := 60 * 60 * 1000.
Definition day_ms : Z := 24 * hour_ms.

Definition unit_ms (u : TimeUnit) : Z :=
  match u with
  | second => 1000
  | minute => 60 * 1000
  | hour => hour_ms
  | day => day_ms
  | week => 7 * day_ms
  | month => 30 * day_ms
  end.

Definition unit_days (n : Z) (u : TimeUnit) : Days :=
  match u with
  | second => DividedDays n (24 * 60 * 60)
  | minute => DividedDays n (24 * 60)
  | hour => DividedDays n 24
  | day => WholeDays n
  | week => WholeDays (n * 7)
  | month => WholeDays (n * 30)
  end.

Definition all_whitespace (s : jsstring) : Prop := forallb is_whitespace s = true.
Definition all_digits (s : jsstring) : Prop := forallb is_digit s = true.

(** The optional leading token: nothing, or "every" in any case followed
    by at least one whitespace. *)
Inductive every_token : jsstring -> Prop :=
| every_absent : every_token []
| every_present (e ws : jsstring) :
    ci_equal (str "every") e = true -> ws <> [] -> all_whitespace ws ->
    every_token (e ++ ws).

(** The unit as written: its singular or plural spelling, in any case. *)
Definition spells (u : TimeUnit) (w : jsstring) : Prop :=
  ci_equal (singular u) w = true \/ ci_equal (plural u) w = true.

(** [frequency_form s n u]: [s] is an optional "every", then the digits
    of [n], then the unit [u], with optional whitespace around the digits
    and around the unit, and nothing else. *)
Definition frequency_form (s : jsstring) (n : Z) (u : TimeUnit) : Prop :=
  exists pre w1 ds w2 w w3,
    s = pre ++ w1 ++ ds ++ w2 ++ w ++ w3
    /\ every_token pre
    /\ all_whitespace w1 /\ all_whitespace w2 /\ all_whitespace w3
    /\ ds <> [] /\ all_digits ds /\ parseInt ds = n
    /\ spells u w.

Definition throws {A} (c : Completion A) : Prop :=
  match c with
  | Throw _ => True
  | Normal _ => False
  end.

(** The failure condition in the words of the specification: the
    expression has not the form, or it has and its integer is not
    positive. *)
Definition spec_rejects (s : jsstring) : Prop :=
  (~ exists n u, frequency_form s n u)
  \/ (exists n u, frequency_form s n u /\ (n <= 0)%Z).

(** *** Due evaluation *)

(** The property of a function of [utils.ts] that reads nothing but its
    argument. *)
Definition reads_only_its_argument {A} (f : Task -> World -> A) : Prop :=
  forall task w1 w2, f task w1 = f task w2.

(** A world in which only the clock matters. *)
Definition world_at (now : Z) : World :=
  {| Utils.Date_now := now; tasks := []; messages := [] |}.

(** A task that was never completed. *)
Definition new_task (frequency : string) (created : Z) : Task :=
  {| id := str "task-1"; name := str "water plants";
     Utils.frequency := str frequency;
     lastCompleted := None; createdAt := created |}.

(** *** Observations of a workflow trace *)

(** The reminders the notifier accepted: level and overdue count. *)
Definition delivered (tr : Trace) : list (ReminderLevel * Z) :=
  flat_map (fun e =>
              match e with
              | SendReminder p _ resp =>
                  if ok resp then [(sp_reminderLevel p, sp_daysOverdue p)] else []
              | _ => []
              end) tr.

(** The answers to the due-checks. *)
Definition checks (tr : Trace) : list CheckResponse :=
  flat_map (fun e =>
              match e with
              | CheckTask _ resp => [resp]
              | _ => []
              end) tr.

(** The task store answered, and said that the task is due. *)
Definition reports_due (r : CheckResponse) : bool := check_ok r && isDue r.

(** What [checkTaskStillDue] makes of an answer. *)
Definition still_due (r : CheckResponse) : bool :=
  if negb (check_ok r) then true else isDue r.

Definition is_check (e : Event) : bool :=
  match e with CheckTask _ _ => true | _ => false end.

Definition is_sleep (e : Event) : bool :=
  match e with Sleep _ _ => true | _ => false end.

Definition is_send (e : Event) : bool :=
  match e with SendReminder _ _ _ => true | _ => false end.

Definition is_create (e : Event) : bool :=
  match e with Create _ _ => true | _ => false end.

(** The durations of the waits. *)
Definition waits (tr : Trace) : list Z :=
  flat_map (fun e =>
              match e with
              | Sleep _ duration => [duration]
              | _ => []
              end) tr.

(** The launch attempts: task and whether the instance was created. *)
Definition launches (tr : Trace) : list (jsstring * bool) :=
  flat_map (fun e =>
              match e with
              | Create options (Normal _) => [(taskId (co_params options), true)]
              | Create options (Throw _) => [(taskId (co_params options), false)]
              | _ => []
              end) tr.

(** The events of one [step.do] around [sendReminderMessage p]: the
    attempts the notifier refused, then the one it accepted if there is
    one.  The flag tells whether the step returned. *)
Inductive send_events (p : SendParams) : bool -> Trace -> Prop :=
| send_accepted rq resp :
    ok resp = true -> text rq = reminderText p ->
    send_events p true [SendReminder p rq resp]
| send_exhausted rq resp :
    ok resp = false -> text rq = reminderText p ->
    send_events p false [SendReminder p rq resp]
| send_refused rq resp accepted evs :
    ok resp = false -> text rq = reminderText p ->
    send_events p accepted evs ->
    send_events p accepted (SendReminder p rq resp :: evs).

Definition send_failure (error : jsstring) : Prop :=
  exists statusText, error = str "Failed to send reminder: " ++ statusText.

Section RunShape.

Variable host : Host.
Variable payload : TaskReminderParams.

Let task := taskId payload.
Let d0 := or_zero (daysOverdue payload).
Let p1 := TaskReminderWorkflow.send_params payload initial d0.
Let p2 := TaskReminderWorkflow.send_params payload followup (d0 + 1).
Let p3 := TaskReminderWorkflow.send_params payload escalation (d0 + 3).
Let wait1 := Sleep (str "wait-for-followup") (24 * 60 * 60).
Let wait2 := Sleep (str "wait-for-escalation") (48 * 60 * 60).

(** The runs of [TaskReminderWorkflow.run] at level [initial]: result and
    trace.  Each due-check is the answer of the host to the trace before
    it. *)
Inductive initial_run : TaskReminderWorkflow.RunResult -> Trace -> Prop :=
| stop_initial_refused e1 error :
    send_events p1 false e1 -> send_failure error ->
    initial_run (TaskReminderWorkflow.RunFailed task error) e1
| stop_not_due e1 r1 :
    send_events p1 true e1 ->
    r1 = check_task host (e1 ++ [wait1]) task -> still_due r1 = false ->
    initial_run (TaskReminderWorkflow.RunCompleted task initial)
      (e1 ++ [wait1; CheckTask task r1])
| stop_followup_refused e1 r1 e2 error :
    send_events p1 true e1 ->
    r1 = check_task host (e1 ++ [wait1]) task -> still_due r1 = true ->
    send_events p2 false e2 -> send_failure error ->
    initial_run (TaskReminderWorkflow.RunFailed task error)
      (e1 ++ [wait1; CheckTask task r1] ++ e2)
| stop_not_due_after_followup e1 r1 e2 r2 :
    send_events p1 true e1 ->
    r1 = check_task host (e1 ++ [wait1]) task -> still_due r1 = true ->
    send_events p2 true e2 ->
    r2 = check_task host (e1 ++ [wait1; CheckTask task r1] ++ e2 ++ [wait2]) task ->
    still_due r2 = false ->
    initial_run (TaskReminderWorkflow.RunCompleted task initial)
      (e1 ++ [wait1; CheckTask task r1] ++ e2 ++ [wait2; CheckTask task r2])
| stop_escalation_refused e1 r1 e2 r2 e3 error :
    send_events p1 true e1 ->
    r1 = check_task host (e1 ++ [wait1]) task -> still_due r1 = true ->
    send_events p2 true e2 ->
    r2 = check_task host (e1 ++ [wait1; CheckTask task r1] ++ e2 ++ [wait2]) task ->
    still_due r2 = true ->
    send_events p3 false e3 -> send_failure error ->
    initial_run (TaskReminderWorkflow.RunFailed task error)
      (e1 ++ [wait1; CheckTask task r1] ++ e2 ++ [wait2; CheckTask task r2] ++ e3)
| stop_escalated e1 r1 e2 r2 e3 :
    send_events p1 true e1 ->
    r1 = check_task host (e1 ++ [wait1]) task -> still_due r1 = true ->
    send_events p2 true e2 ->
    r2 = check_task host (e1 ++ [wait1; CheckTask task r1] ++ e2 ++ [wait2]) task ->
    still_due r2 = true ->
    send_events p3 true e3 ->
    initial_run (TaskReminderWorkflow.RunCompleted task initial)
      (e1 ++ [wait1; CheckTask task r1] ++ e2 ++ [wait2; CheckTask task r2] ++ e3).

End RunShape.

(** *** Example hosts *)

(** The clock of the example hosts: a start instant plus the waits so
    far, each number passed to [step.sleep] counted as that many
    milliseconds. *)
Definition clock_after (tr : Trace) : Z :=
  (1700000000000 + fold_right Z.add 0 (waits tr))%Z.

(** A host whose notifier accepts every reminder, whose task store gives
    the same answer to every due-check, and that creates every instance. *)
Definition steady_host (answer : CheckResponse) : Host :=
  {| step_retries := 5;
     generateId := fun tr => str "msg-" ++ N_toString (N.of_nat (List.length tr));
     Date_now := clock_after;
     add_reminder := fun _ _ => {| ok := true; statusText := str "OK" |};
     check_task := fun _ _ => answer;
     create := fun _ options => Normal (co_id options) |}.

Definition says_due : CheckResponse := {| check_ok := true; isDue := true |}.
Definition says_not_due : CheckResponse := {| check_ok := true; isDue := false |}.
Definition store_failure : CheckResponse := {| check_ok := false; isDue := false |}.

Definition example_payload : TaskReminderParams :=
  {| taskId := str "task-1";
     taskName := str "water plants";
     frequency := str "7 days";
     reminderLevel := initial;
     dueDate := 1700000000000;
     daysOverdue := Some 2%Z |}.

(** A host whose task store is the agent of [server.ts] holding one task,
    which the user completes at the instant [completedAt]. *)
Definition agent_world (task : Task) (completedAt : Z) (tr : Trace) : World :=
  {| Utils.Date_now := clock_after tr;
     tasks := [ {| id := Utils.id task;
                   name := Utils.name task;
                   Utils.frequency := Utils.frequency task;
                   lastCompleted := if (completedAt <=? clock_after tr)%Z
                                    then Some completedAt
                                    else lastCompleted task;
                   createdAt := createdAt task |} ];
     messages := [] |}.

Definition agent_host (task : Task) (completedAt : Z) : Host :=
  {| step_retries := 5;
     generateId := fun tr => str "msg-" ++ N_toString (N.of_nat (List.length tr));
     Date_now := clock_after;
     add_reminder := fun _ _ => {| ok := true; statusText := str "OK" |};
     check_task := fun tr taskId =>
                     Server.check_task_endpoint (agent_world task completedAt tr) taskId;
     create := fun _ options => Normal (co_id options) |}.

(** *** Batches *)

Definition succeeded (outcomes : list (jsstring * bool)) : list (jsstring * bool) :=
  filter (fun o => snd o) outcomes.

Definition failed (outcomes : list (jsstring * bool)) : list (jsstring * bool) :=
  filter (fun o => negb (snd o)) outcomes.

(** The counts "as they stand after the retry", in the words of the
    specification: a task counts as succeeded when one of its launch
    attempts, the first or the retry, created its instance. *)
Definition reports_counts_after_retry (dueTasks : list DueTask)
    (result : BatchTaskReminderWorkflow.BatchResult) (tr : Trace) : Prop :=
  match result with
  | BatchTaskReminderWorkflow.Processed processed successful failed _ =>
      processed = List.length dueTasks
      /\ successful = List.length (succeeded (launches tr))
      /\ failed = (List.length dueTasks - successful)%nat
  | BatchTaskReminderWorkflow.NothingToProcess _ => dueTasks = []
  end.

(** A host that cannot create instances until the workflow has waited
    once. *)
Definition recovering_host : Host :=
  {| step_retries := 5;
     generateId := fun tr => str "msg-" ++ N_toString (N.of_nat (List.length tr));
     Date_now := clock_after;
     add_reminder := fun _ _ => {| ok := true; statusText := str "OK" |};
     check_task := fun _ _ => says_due;
     create := fun tr options =>
                 match waits tr with
                 | [] => Throw (ThrownError (str "unavailable"))
                 | _ :: _ => Normal (co_id options)
                 end |}.

(** A host that can never create the instance of one task. *)
Definition host_refusing (task : jsstring) : Host :=
  {| step_retries := 5;
     generateId := fun tr => str "msg-" ++ N_toString (N.of_nat (List.length tr));
     Date_now := clock_after;
     add_reminder := fun _ _ => {| ok := true; statusText := str "OK" |};
     check_task := fun _ _ => says_due;
     create := fun tr options =>
                 if jsstring_eqb (taskId (co_params options)) task
                 then Throw (ThrownError (str "unavailable"))
                 else Normal (co_id options) |}.

Definition due_task (n : N) : DueTask :=
  {| dt_id := str "task-" ++ N_toString n;
     dt_name := str "chore " ++ N_toString n;
     dt_frequency := str "7 days";
     dt_daysOverdue := Z.of_N n |}.

(** *** Message texts *)

(** The text of the specification for a level, with the word it writes
    after the overdue count left open. *)
Definition spec_text_with (day_word : jsstring) (level : ReminderLevel)
    (name frequency : jsstring) (overdueDays : Z) : jsstring :=
  match level with
  | initial =>
      str "Reminder: " ++ [dquote] ++ name ++ [dquote]
      ++ str " is due. Frequency: " ++ frequency ++ str "."
  | followup =>
      str "Follow-up: " ++ [dquote] ++ name ++ [dquote]
      ++ str " is still due (" ++ Number_toString overdueDays ++ str " "
      ++ day_word ++ str " overdue). Don't forget!"
  | escalation =>
      str "URGENT: " ++ [dquote] ++ name ++ [dquote]
      ++ str " is " ++ Number_toString overdueDays ++ str " "
      ++ day_word ++ str " overdue! Please complete this task soon."
  end.

(** The text as the specification writes it. *)
Definition spec_text : ReminderLevel -> jsstring -> jsstring -> Z -> jsstring :=
  spec_text_with (str "day(s)").

End Spec.

Import Spec.

(** ** [src/tools.ts]: the tools that change and read the task list *)

Module Tools.

(** [agent.state], as far as the tools use it: its [tasks], or [None]
    when the state or its [tasks] are missing.  Every [setState] of the
    tools spreads the current state and replaces [tasks], so the other
    properties of the state stay as they are. *)
Definition AgentState := option (list Task).

(** [currentState.tasks || []], with the dates read back. *)
Definition stored_tasks (state : AgentState) : list Task :=
  match state with
  | Some ts => ts
  | None => []
  end.

Definition agent_not_available : jsstring := str "Agent not available".

(** [error instanceof Error ? error.message : "Unknown error occurred"] *)
Definition tool_error_message (e : Thrown) : jsstring :=
  match e with
  | ThrownError m => m
  | ThrownOther => str "Unknown error occurred"
  end.

(** The world a tool evaluates [isTaskDue] and [getDaysOverdue] in. *)
Definition world_of (state : AgentState) (now : Z) : World :=
  {| Utils.Date_now := now; tasks := stored_tasks state; messages := [] |}.

(** [tasks.findIndex((t) => t.id === taskId)], [None] for -1. *)
Fixpoint findIndex (taskId : jsstring) (ts : list Task) : option nat :=
  match ts with
  | [] => None
  | t :: ts' =>
      if jsstring_eqb (Utils.id t) taskId then Some O
      else match findIndex taskId ts' with
           | Some i => Some (S i)
           | None => None
           end
  end.

Definition completed (t : Task) (now : Z) : Task :=
  {| Utils.id := Utils.id t;
     Utils.name := Utils.name t;
     Utils.frequency := Utils.frequency t;
     lastCompleted := Some now;
     createdAt := createdAt t |}.

(** [updatedTasks[taskIndex] = { ...updatedTasks[taskIndex],
    lastCompleted: new Date() }], for an index of the array, which is what
    [findIndex] returns. *)
Fixpoint complete_at (index : nat) (now : Z) (ts : list Task) : list Task :=
  match ts, index with
  | [], _ => []
  | t :: ts', O => completed t now :: ts'
  | t :: ts', S i => t :: complete_at i now ts'
  end.

Definition not_found_message (taskId : jsstring) : jsstring :=
  str "Task with ID " ++ taskId ++ str " not found".

Inductive AddTaskResult : Type :=
| TaskAdded (task : Task) (message : jsstring).

Inductive CompleteResult : Type :=
| CompleteNotFound (message : jsstring)
| TaskCompleted (task : option Task) (message : jsstring).

Inductive DeleteResult : Type :=
| DeleteNotFound (message : jsstring)
| TaskDeleted (message : jsstring) (deletedTaskId : jsstring).

Inductive ClearResult : Type :=
| Cleared (message : jsstring) (clearedCount : nat).

(** An element of the [tasks] of [listTasks]; the dates are those of the
    task. *)
Record ListedTask : Type := { listed : Task; listed_isDue : bool }.

Inductive ListResult : Type :=
| Listed (listedTasks : list ListedTask) (count : nat)
| ListFailed (error : jsstring).

(** An element of the [dueTasks] of [checkDueTasks]. *)
Record DueEntry : Type := { entry : Task; entry_daysOverdue : Z }.

Inductive DueResult : Type :=
| DueListed (dueTasks : list DueEntry) (count : nat)
| DueFailed (error : jsstring).

(** A tool gets the agent of the context, [None] when there is none, and
    returns its completion and the state of the agent after it. *)
Definition addTask (name frequency : jsstring) (newId : jsstring) (now : Z)
    (agent : option AgentState) : Completion AddTaskResult * option AgentState :=
  match agent with
  | None => (Throw (ThrownError agent_not_available), None)
  | Some state =>
      match parseFrequencyToDays frequency with
      | Throw e => (Throw e, Some state)
      | Normal _ =>
          let newTask := {| Utils.id := newId;
                            Utils.name := name;
                            Utils.frequency := frequency;
                            lastCompleted := None;
                            createdAt := now |} in
          let updatedTasks := stored_tasks state ++ [newTask] in
          (Normal (TaskAdded newTask
                     (str "Task " ++ dquote :: name ++ dquote
                      :: str " added with frequency " ++ frequency)),
           Some (Some updatedTasks))
      end
  end.

Definition markTaskComplete (taskId : jsstring) (now : Z)
    (agent : option AgentState) : Completion CompleteResult * option AgentState :=
  match agent with
  | None => (Throw (ThrownError agent_not_available), None)
  | Some state =>
      let tasks := stored_tasks state in
      match findIndex taskId tasks with
      | None => (Normal (CompleteNotFound (not_found_message taskId)), Some state)
      | Some taskIndex =>
          let updatedTasks := complete_at taskIndex now tasks in
          let updated := nth_error updatedTasks taskIndex in
          (Normal (TaskCompleted updated
                     (str "Task " ++ dquote
                      :: match updated with
                         | Some t => Utils.name t
                         | None => []
                         end
                      ++ dquote :: str " marked as completed")),
           Some (Some updatedTasks))
      end
  end.

Definition deleteTask (taskId : jsstring)
    (agent : option AgentState) : Completion DeleteResult * option AgentState :=
  match agent with
  | None => (Throw (ThrownError agent_not_available), None)
  | Some state =>
      let tasks := stored_tasks state in
      match findIndex taskId tasks with
      | None => (Normal (DeleteNotFound (not_found_message taskId)), Some state)
      | Some taskIndex =>
          let deletedName := match nth_error tasks taskIndex with
                             | Some t => Utils.name t
                             | None => []
                             end in
          let updatedTasks :=
            filter (fun t => negb (jsstring_eqb (Utils.id t) taskId)) tasks in
          (Normal (TaskDeleted
                     (str "Task " ++ dquote :: deletedName ++ dquote
                      :: str " has been deleted") taskId),
           Some (Some updatedTasks))
      end
  end.

Definition clearAllTasks
    (agent : option AgentState) : Completion ClearResult * option AgentState :=
  match agent with
  | None => (Throw (ThrownError agent_not_available), None)
  | Some state =>
      let taskCount := List.length (stored_tasks state) in
      (Normal (Cleared
                 (str "All " ++ N_toString (N.of_nat taskCount) ++ str " task"
                  ++ (if Nat.eqb taskCount 1 then [] else str "s")
                  ++ str " have been cleared") taskCount),
       Some (Some []))
  end.

(** [tasks.map((task) => ({ ..., isDue: isTaskDue(task) }))] *)
Fixpoint with_due (w : World) (ts : list Task) : Completion (list ListedTask) :=
  match ts with
  | [] => Normal []
  | task :: ts' =>
      match isTaskDue task w with
      | Throw e => Throw e
      | Normal due =>
          match with_due w ts' with
          | Throw e => Throw e
          | Normal rest => Normal ({| listed := task; listed_isDue := due |} :: rest)
          end
      end
  end.

Definition listTasks (now : Z) (agent : option AgentState) : ListResult :=
  match agent with
  | None => ListFailed agent_not_available
  | Some state =>
      match with_due (world_of state now) (stored_tasks state) with
      | Throw e => ListFailed (tool_error_message e)
      | Normal listedTasks => Listed listedTasks (List.length (stored_tasks state))
      end
  end.

(** [dueTasks.map((task) => ({ ..., daysOverdue: getDaysOverdue(task) }))] *)
Fixpoint with_overdue (w : World) (dueTasks : list Task) : Completion (list DueEntry) :=
  match dueTasks with
  | [] => Normal []
  | task :: rest =>
      match getDaysOverdue task w with
      | Throw e => Throw e
      | Normal days =>
          match with_overdue w rest with
          | Throw e => Throw e
          | Normal rest' =>
              Normal ({| entry := task; entry_daysOverdue := days |} :: rest')
          end
      end
  end.

Definition checkDueTasks (now : Z) (agent : option AgentState) : DueResult :=
  match agent with
  | None => DueFailed agent_not_available
  | Some state =>
      let w := world_of state now in
      match Server.filter_due w (stored_tasks state) with
      | Throw e => DueFailed (tool_error_message e)
      | Normal dueTasks =>
          match with_overdue w dueTasks with
          | Throw e => DueFailed (tool_error_message e)
          | Normal entries => DueListed entries (List.length dueTasks)
          end
      end
  end.

End Tools.

(** ** [src/server.ts]: the periodic scan *)

Module Scanner.

(** The options of [BATCH_TASK_REMINDER_WORKFLOW.create]. *)
Record BatchOptions : Type := {
  batch_id : jsstring;
  batch_dueTasks : list DueTask
}.

(** What one call of [checkAndRemindTasks] does.  The ids and the time
    stamps of the messages of the fallback come from [generateId] and
    [new Date()]; their texts are kept.  [saveMessages] is taken to
    succeed. *)
Inductive Tick : Type :=
| TickIdle                                            (* no task is due *)
| TickBatch (options : BatchOptions) (instance : jsstring)
| TickMessages (texts : list jsstring)                (* [saveMessages] *)
| TickError (error : Thrown).                         (* caught and logged *)

(** The text of a reminder of the fallback. *)
Definition fallback_text (task : Task) (daysOverdue : Z) : jsstring :=
  let overdueText :=
    if (0 <? daysOverdue)%Z
    then str " (" ++ Number_toString daysOverdue ++ str " day"
         ++ (if (daysOverdue =? 1)%Z then [] else str "s") ++ str " overdue)"
    else [] in
  [55357; 56596]%N ++ str " Reminder: " ++ dquote :: Utils.name task
  ++ dquote :: str " is due" ++ overdueText
  ++ str ". Frequency: " ++ Utils.frequency task ++ str ".".

Fixpoint fallback_texts (w : World) (dueTasks : list Task) : Completion (list jsstring) :=
  match dueTasks with
  | [] => Normal []
  | task :: rest =>
      match getDaysOverdue task w with
      | Throw e => Throw e
      | Normal days =>
          match fallback_texts w rest with
          | Throw e => Throw e
          | Normal texts => Normal (fallback_text task days :: texts)
          end
      end
  end.

(** [checkAndRemindTasks]: [binding] is [env.BATCH_TASK_REMINDER_WORKFLOW],
    given by what its [create] answers, or [None] when the binding is
    missing. *)
Definition checkAndRemindTasks (w : World)
    (binding : option (BatchOptions -> Completion jsstring)) : Tick :=
  match Server.filter_due w (tasks w) with
  | Throw e => TickError e
  | Normal [] => TickIdle
  | Normal dueTasks =>
      match binding with
      | Some create =>
          match Server.snapshot w dueTasks with
          | Throw e => TickError e
          | Normal batch =>
              let options :=
                {| batch_id := str "batch-reminder-"
                               ++ Number_toString (Utils.Date_now w);
                   batch_dueTasks := batch |} in
              match create options with
              | Normal instance => TickBatch options instance
              | Throw e => TickError e
              end
          end
      | None =>
          match fallback_texts w dueTasks with
          | Throw e => TickError e
          | Normal texts => TickMessages texts
          end
      end
  end.

End Scanner.

(** ** [src/utils.ts]: [cleanupMessages] *)

Module Messages.

(** The values of [part.output], as far as their truthiness goes. *)
Inductive JsValue : Type :=
| JsUndefined
| JsNull
| JsBoolean (b : bool)
| JsNumber (z : Z)
| JsString (s : jsstring)
| JsObject.

Definition truthy (v : JsValue) : bool :=
  match v with
  | JsUndefined | JsNull => false
  | JsBoolean b => b
  | JsNumber z => negb (z =? 0)%Z
  | JsString s => negb (jsstring_eqb s [])
  | JsObject => true
  end.

Record UIPart : Type := {
  part_type : jsstring;
  part_state : jsstring;
  part_output : JsValue;
  part_errorText : option jsstring
}.

Record UIMessage : Type := {
  message_id : jsstring;
  message_role : jsstring;
  message_parts : option (list UIPart)     (* [None]: no [parts] *)
}.

Section Cleanup.

(** [isToolUIPart] of the package [ai]. *)
Variable isToolUIPart : UIPart -> bool.

(** [!part.errorText] *)
Definition no_errorText (part : UIPart) : bool :=
  match part_errorText part with
  | None => true
  | Some s => jsstring_eqb s []
  end.

Definition incompleteToolCall (part : UIPart) : bool :=
  if negb (isToolUIPart part) then false
  else jsstring_eqb (part_state part) (str "input-streaming")
       || (jsstring_eqb (part_state part) (str "input-available")
           && negb (truthy (part_output part)) && no_errorText part).

Definition cleanupMessages (messages : list UIMessage) : list UIMessage :=
  filter (fun message =>
            match message_parts message with
            | None => true
            | Some parts =>
                let hasIncompleteToolCall := existsb incompleteToolCall parts in
                negb hasIncompleteToolCall
            end) messages.

End Cleanup.

End Messages.

(** ** Vocabulary of the further properties *)

Module Further.

(** Every task of the list has a frequency that parses. *)
Definition all_parse (ts : list Task) : Prop :=
  Forall (fun t => ~ throws (parseFrequencyToMilliseconds (Utils.frequency t))) ts.

(** [a] is the start of [b]. *)
Definition starts (A : Type) (a b : list A) : Prop := exists rest, b = a ++ rest.

(** The three reminders of a full escalation from the overdue count [d]. *)
Definition full_escalation (d : Z) : list (ReminderLevel * Z) :=
  [(initial, d); (followup, (d + 1)%Z); (escalation, (d + 3)%Z)].

(** A host whose notifier accepts the Initial and the FollowUp reminders
    and refuses every Escalation reminder; its task store reports every
    task due. *)
Definition escalation_refusing_host : Host :=
  {| step_retries := 5;
     generateId := fun tr => str "msg-" ++ N_toString (N.of_nat (List.length tr));
     Date_now := clock_after;
     add_reminder := fun _ rq =>
                       match rq_reminderLevel rq with
                       | escalation =>
                           {| ok := false; statusText := str "Service Unavailable" |}
                       | _ => {| ok := true; statusText := str "OK" |}
                       end;
     check_task := fun _ _ => says_due;
     create := fun _ options => Normal (co_id options) |}.

(** A host whose notifier refuses every reminder with the same status. *)
Definition refusing_host (retries : nat) (status : jsstring) : Host :=
  {| step_retries := retries;
     generateId := fun tr => str "msg-" ++ N_toString (N.of_nat (List.length tr));
     Date_now := clock_after;
     add_reminder := fun _ _ => {| ok := false; statusText := status |};
     check_task := fun _ _ => says_due;
     create := fun _ options => Normal (co_id options) |}.

(** The options of the launches of a trace. *)
Definition created (tr : Trace) : list CreateOptions :=
  flat_map (fun e =>
              match e with
              | Create options _ => [options]
              | _ => []
              end) tr.

(** [o] are the options of a launch of the task [t] in the pass with the
    prefix [prefix]: the instance starts at level [initial] with the data
    of the task, and its id is the prefix, the id of the task and a stamp. *)
Definition launch_of (prefix : string) (t : DueTask) (o : CreateOptions) : Prop :=
  (exists stamp, co_id o = str prefix ++ dt_id t ++ str "-" ++ stamp)
  /\ taskId (co_params o) = dt_id t
  /\ taskName (co_params o) = dt_name t
  /\ frequency (co_params o) = dt_frequency t
  /\ reminderLevel (co_params o) = initial
  /\ daysOverdue (co_params o) = Some (dt_daysOverdue t).

(** The ASCII letters of a string in upper case, the rest as it is. *)
Definition ascii_upper (s : jsstring) : jsstring := map canonicalize s.

(** The tasks of the agent after a tool. *)
Definition tasks_after {A} (r : Completion A * option Tools.AgentState) : list Task :=
  match snd r with
  | Some state => Tools.stored_tasks state
  | None => []
  end.

(** [isTaskDue] returns true. *)
Definition due_now (w : World) (t : Task) : bool :=
  match isTaskDue t w with
  | Normal true => true
  | _ => false
  end.

(** The element of a batch for an entry of [checkDueTasks]. *)
Definition to_due (e : Tools.DueEntry) : DueTask :=
  {| dt_id := Utils.id (Tools.entry e);
     dt_name := Utils.name (Tools.entry e);
     dt_frequency := Utils.frequency (Tools.entry e);
     dt_daysOverdue := Tools.entry_daysOverdue e |}.

(** The first task of a list with an id. *)
Definition task_with (taskId : jsstring) (ts : list Task) : option Task :=
  find (fun t => jsstring_eqb (Utils.id t) taskId) ts.

(** Two completions are both normal with the same value, or both throws. *)
Definition same_outcome {A} (a b : Completion A) : Prop :=
  match a, b with
  | Normal x, Normal y => x = y
  | Throw _, Throw _ => True
  | _, _ => False
  end.

End Further.

Import Further.

(** ** Facts about JavaScript strings *)

Lemma jsstring_eqb_eq a b : jsstring_eqb a b = true <-> a = b.
Proof.
  revert b; induction a as [|x a IH]; intros [|y b]; simpl;
    try (split; [discriminate | congruence]); [tauto|].
  rewrite andb_true_iff, N.eqb_eq, IH. split.
  - intros [-> ->]; reflexivity.
  - intros E; inversion E; auto.
Qed.

Lemma span_split p s a b : span p s = (a, b) -> s = a ++ b.
Proof.
  revert a b; induction s as [|c s IH]; simpl; intros a b H.
  - inversion H; reflexivity.
  - destruct (p c).
    + destruct (span p s) as [a' b']. inversion H; subst.
      simpl; f_equal; apply IH; reflexivity.
    + inversion H; reflexivity.
Qed.

Lemma span_all p s a b : span p s = (a, b) -> forallb p a = true.
Proof.
  revert a b; induction s as [|c s IH]; simpl; intros a b H.
  - inversion H; reflexivity.
  - destruct (p c) eqn:Hc.
    + destruct (span p s) as [a' b']. inversion H; subst.
      simpl; rewrite Hc; simpl; eapply IH; reflexivity.
    + inversion H; reflexivity.
Qed.

Lemma span_stops p s a b : span p s = (a, b) -> stops p b.
Proof.
  revert a b; induction s as [|c s IH]; simpl; intros a b H.
  - inversion H; exact I.
  - destruct (p c) eqn:Hc.
    + destruct (span p s) as [a' b']. inversion H; subst.
      eapply IH; reflexivity.
    + inversion H; subst; exact Hc.
Qed.

Lemma span_app p a b : forallb p a = true -> stops p b -> span p (a ++ b) = (a, b).
Proof.
  induction a as [|c a IH]; simpl; intros Ha Hb.
  - destruct b as [|c b]; simpl in *; [reflexivity | rewrite Hb; reflexivity].
  - apply andb_prop in Ha as [Hc Ha]. rewrite Hc, IH by assumption. reflexivity.
Qed.

Lemma drop_while_span p s : drop_while p s = snd (span p s).
Proof.
  induction s as [|c s IH]; simpl; [reflexivity|].
  destruct (p c); [|reflexivity].
  rewrite IH. destruct (span p s); reflexivity.
Qed.

Lemma drop_while_app p a b :
  forallb p a = true -> stops p b -> drop_while p (a ++ b) = b.
Proof.
  intros Ha Hb. rewrite drop_while_span, span_app by assumption. reflexivity.
Qed.

Lemma drop_while_split p s :
  exists a, s = a ++ drop_while p s /\ forallb p a = true /\ stops p (drop_while p s).
Proof.
  rewrite drop_while_span. destruct (span p s) as [a b] eqn:E. exists a; simpl.
  split; [eapply span_split; eassumption|].
  split; [eapply span_all; eassumption | eapply span_stops; eassumption].
Qed.

Lemma forallb_rev {A} (p : A -> bool) l : forallb p (rev l) = forallb p l.
Proof.
  induction l as [|a l IH]; simpl; [reflexivity|].
  rewrite forallb_app, IH; simpl. rewrite andb_true_r. apply andb_comm.
Qed.

(** [trim] removes a run of whitespace at each end and nothing else. *)
Lemma trim_split s :
  exists w1 w3, s = w1 ++ trim s ++ w3
                /\ all_whitespace w1 /\ all_whitespace w3
                /\ stops is_whitespace (trim s)
                /\ stops is_whitespace (rev (trim s)).
Proof.
  unfold trim.
  destruct (drop_while_split is_whitespace s) as (w1 & E1 & H1 & S1).
  destruct (drop_while_split is_whitespace (rev (drop_while is_whitespace s)))
    as (w3 & E3 & H3 & S3).
  set (t := drop_while is_whitespace s) in *.
  set (r := drop_while is_whitespace (rev t)) in *.
  exists w1, (rev w3). 
  assert (Et : t = rev r ++ rev w3).
  { rewrite <- rev_app_distr, <- E3, rev_involutive. reflexivity. }
  split; [rewrite <- Et; exact E1|].
  split; [exact H1|].
  split; [unfold all_whitespace; rewrite forallb_rev; exact H3|].
  split; [|rewrite rev_involutive; exact S3].
  destruct (rev r) as [|c r'] eqn:Er; [exact I|].
  simpl. rewrite Et in S1. simpl in S1. exact S1.
Qed.

Lemma trim_core w1 core w3 :
  all_whitespace w1 -> all_whitespace w3 ->
  stops is_whitespace core -> stops is_whitespace (rev core) ->
  core <> [] ->
  trim (w1 ++ core ++ w3) = core.
Proof.
  intros H1 H3 S1 S2 Hne. unfold trim.
  rewrite drop_while_app; [| exact H1 |].
  - rewrite rev_app_distr, drop_while_app.
    + apply rev_involutive.
    + unfold all_whitespace in *. rewrite forallb_rev; exact H3.
    + exact S2.
  - destruct core as [|c core]; [congruence|]. exact S1.
Qed.

(** *** Decimal digits *)

Ltac unbool :=
  repeat match goal with
         | H : (_ && _)%bool = true |- _ => apply andb_prop in H as [? ?]
         | H : (_ || _)%bool = false |- _ => apply orb_false_elim in H as [? ?]
         | H : (_ <=? _)%N = true |- _ => apply N.leb_le in H
         | H : (_ <=? _)%N = false |- _ => apply N.leb_gt in H
         | H : (_ <? _)%N = true |- _ => apply N.ltb_lt in H
         | H : (_ <? _)%N = false |- _ => apply N.ltb_ge in H
         | H : (_ =? _)%N = true |- _ => apply N.eqb_eq in H
         | H : (_ =? _)%N = false |- _ => apply N.eqb_neq in H
         end.

Lemma parseInt_snoc ds c : parseInt (ds ++ [c]) = (10 * parseInt ds + digit_value c)%Z.
Proof. unfold parseInt. rewrite fold_left_app. reflexivity. Qed.

Lemma decimal_digits_spec fuel :
  forall n acc, (n < 10 * 2 ^ N.of_nat fuel)%N ->
    exists ds, decimal_digits fuel n acc = ds ++ acc
               /\ ds <> [] /\ all_digits ds /\ parseInt ds = Z.of_N n.
Proof.
  assert (Hlast : forall n acc, (n < 10)%N ->
            exists ds, (48 + n mod 10)%N :: acc = ds ++ acc
                       /\ ds <> [] /\ all_digits ds /\ parseInt ds = Z.of_N n).
  { intros n acc Hn. exists [(48 + n mod 10)%N].
    rewrite N.mod_small by exact Hn.
    split; [reflexivity|]. split; [discriminate|]. split.
    - unfold all_digits, is_digit; cbn [forallb].
      rewrite andb_true_r. apply andb_true_intro; split; apply N.leb_le; lia.
    - unfold parseInt, digit_value; cbn [fold_left]. lia. }
  induction fuel as [|fuel IH]; intros n acc Hn.
  - simpl in Hn. apply Hlast. lia.
  - cbn [decimal_digits]. destruct (n <? 10)%N eqn:Hlt.
    + apply Hlast. apply N.ltb_lt; exact Hlt.
    + apply N.ltb_ge in Hlt.
      assert (Hm : (n mod 10 < 10)%N) by (apply N.mod_upper_bound; lia).
      assert (Hq : (n / 10 < 10 * 2 ^ N.of_nat fuel)%N).
      { rewrite Nat2N.inj_succ, N.pow_succ_r' in Hn.
        apply N.Div0.div_lt_upper_bound. lia. }
      pose proof (N.div_mod n 10 ltac:(lia)) as Hdm.
      set (m := (n mod 10)%N) in *. set (q := (n / 10)%N) in *. clearbody m q.
      destruct (IH q ((48 + m)%N :: acc) Hq) as (ds & E & Hne & Hd & Hv).
      exists (ds ++ [(48 + m)%N]).
      split; [rewrite E, <- app_assoc; reflexivity|].
      split; [destruct ds; discriminate|].
      split.
      * unfold all_digits in *. rewrite forallb_app, Hd; cbn [forallb andb].
        rewrite andb_true_r. unfold is_digit.
        apply andb_true_intro; split; apply N.leb_le; lia.
      * rewrite parseInt_snoc, Hv. unfold digit_value. lia.
Qed.

Lemma N_toString_spec n :
  N_toString n <> [] /\ all_digits (N_toString n)
  /\ parseInt (N_toString n) = Z.of_N n.
Proof.
  unfold N_toString.
  destruct (decimal_digits_spec (N.to_nat (N.size n)) n []) as (ds & E & H).
  - rewrite N2Nat.id. pose proof (N.size_gt n). lia.
  - rewrite E, app_nil_r. exact H.
Qed.

(** *** Case-insensitive matching *)

Lemma canonicalize_lower w c :
  is_ascii_lower w = true -> (canonicalize w =? canonicalize c)%N = true ->
  to_lower_unit c = w /\ is_ascii_letter c = true.
Proof.
  unfold canonicalize, to_lower_unit, is_ascii_letter, is_ascii_lower, is_ascii_upper.
  intros Hw H. rewrite Hw in H.
  destruct ((97 <=? c) && (c <=? 122))%N eqn:Hc; simpl;
    unbool.
  - assert (c = w) by lia. subst.
    replace ((65 <=? w) && (w <=? 90))%N with false; [auto|].
    symmetry. apply andb_false_iff. right. apply N.leb_gt. lia.
  - assert (Hu : ((65 <=? c) && (c <=? 90))%N = true).
    { apply andb_true_intro; split; apply N.leb_le; lia. }
    rewrite Hu. split; [lia | reflexivity].
Qed.

Lemma ci_equal_lower word :
  forallb is_ascii_lower word = true ->
  forall w, ci_equal word w = true ->
    toLowerCase w = word /\ forallb is_ascii_letter w = true.
Proof.
  induction word as [|a word IH]; intros Hl [|c w] H; simpl in *; try discriminate.
  - split; reflexivity.
  - apply andb_prop in Hl as [Ha Hl]. apply andb_prop in H as [Hc H].
    destruct (canonicalize_lower a c Ha Hc) as [E L].
    destruct (IH Hl w H) as [E' L'].
    rewrite E, E', L, L'. split; reflexivity.
Qed.

Lemma ci_equal_length word : forall w, ci_equal word w = true -> List.length w = List.length word.
Proof.
  induction word as [|a word IH]; intros [|c w] H; simpl in *; try discriminate.
  - reflexivity.
  - apply andb_prop in H as [_ H]. f_equal; apply IH; exact H.
Qed.

Lemma ci_strip_prefix_app word e rest :
  ci_equal word e = true -> ci_strip_prefix word (e ++ rest) = Some rest.
Proof.
  revert e; induction word as [|a word IH]; intros [|c e] H; simpl in *; try discriminate.
  - destruct rest; reflexivity.
  - apply andb_prop in H as [Hc H]. rewrite Hc. apply IH; exact H.
Qed.

Lemma ci_strip_prefix_split word :
  forall s rest, ci_strip_prefix word s = Some rest ->
    exists e, s = e ++ rest /\ ci_equal word e = true.
Proof.
  induction word as [|a word IH]; intros s rest H; simpl in *.
  - exists []. destruct s; inversion H; split; reflexivity.
  - destruct s as [|c s]; [discriminate|].
    destruct (canonicalize a =? canonicalize c)%N eqn:Hc; [|discriminate].
    destruct (IH s rest H) as (e & E & He).
    exists (c :: e). simpl. rewrite Hc, He, E. split; reflexivity.
Qed.

Lemma letter_not_whitespace c : is_ascii_letter c = true -> is_whitespace c = false.
Proof.
  unfold is_ascii_letter, is_ascii_lower, is_ascii_upper, is_whitespace. intros H.
  apply orb_prop in H.
  repeat (apply orb_false_intro);
    try (apply N.eqb_neq; destruct H; unbool; lia);
    apply andb_false_iff; destruct H; unbool;
      try (left; apply N.leb_gt; lia); right; apply N.leb_gt; lia.
Qed.

Lemma letter_not_digit c : is_ascii_letter c = true -> is_digit c = false.
Proof.
  unfold is_ascii_letter, is_ascii_lower, is_ascii_upper, is_digit. intros H.
  apply orb_prop in H. apply andb_false_iff.
  destruct H; unbool; right; apply N.leb_gt; lia.
Qed.

Lemma digit_not_whitespace c : is_digit c = true -> is_whitespace c = false.
Proof.
  unfold is_digit, is_whitespace. intros H. unbool.
  repeat (apply orb_false_intro);
    try (apply N.eqb_neq; lia);
    apply andb_false_iff;
      try (left; apply N.leb_gt; lia); right; apply N.leb_gt; lia.
Qed.

Lemma digit_not_letter c : is_digit c = true -> is_ascii_letter c = false.
Proof.
  intros H. destruct (is_ascii_letter c) eqn:E; [|reflexivity].
  apply letter_not_digit in E. congruence.
Qed.

(** ** The language of [parseFrequencyToMilliseconds] *)

Lemma whitespace_not_digit c : is_whitespace c = true -> is_digit c = false.
Proof.
  intros H. destruct (is_digit c) eqn:E; [|reflexivity].
  apply digit_not_whitespace in E. congruence.
Qed.

Lemma singular_lower u : forallb is_ascii_lower (singular u) = true.
Proof. destruct u; reflexivity. Qed.

Lemma plural_lower u : forallb is_ascii_lower (plural u) = true.
Proof. destruct u; reflexivity. Qed.

Lemma spells_lower u w :
  spells u w ->
  (toLowerCase w = singular u \/ toLowerCase w = plural u)
  /\ forallb is_ascii_letter w = true /\ w <> [].
Proof.
  intros [H|H].
  - destruct (ci_equal_lower (singular u) (singular_lower u) w H) as [E L].
    split; [left; exact E|]. split; [exact L|].
    apply ci_equal_length in H. destruct u, w; discriminate.
  - destruct (ci_equal_lower (plural u) (plural_lower u) w H) as [E L].
    split; [right; exact E|]. split; [exact L|].
    apply ci_equal_length in H. destruct u, w; discriminate.
Qed.

Lemma spells_unit_word u w :
  spells u w -> existsb (fun word => ci_equal word w) unit_words = true.
Proof.
  intros H. apply existsb_exists.
  destruct H as [H|H]; [exists (singular u) | exists (plural u)];
    (split; [destruct u; simpl; auto 20 | exact H]).
Qed.

Lemma unit_word_spells w :
  existsb (fun word => ci_equal word w) unit_words = true -> exists u, spells u w.
Proof.
  intros H. apply existsb_exists in H as (word & Hin & Hw).
  unfold unit_words in Hin. simpl in Hin.
  repeat (destruct Hin as [Hin|Hin];
          [subst word;
           first [ exists second; (left + right); exact Hw
                 | exists minute; (left + right); exact Hw
                 | exists hour; (left + right); exact Hw
                 | exists day; (left + right); exact Hw
                 | exists week; (left + right); exact Hw
                 | exists month; (left + right); exact Hw ] |]).
  contradiction.
Qed.

Lemma letters_stop w :
  forallb is_ascii_letter w = true ->
  stops is_whitespace w /\ stops is_digit w /\ stops is_whitespace (rev w).
Proof.
  intros H. split; [|split].
  - destruct w as [|c w]; [exact I|]. simpl in *.
    apply andb_prop in H as [H _]. apply letter_not_whitespace; exact H.
  - destruct w as [|c w]; [exact I|]. simpl in *.
    apply andb_prop in H as [H _]. apply letter_not_digit; exact H.
  - rewrite <- forallb_rev in H. destruct (rev w) as [|c r]; [exact I|].
    simpl in *. apply andb_prop in H as [H _]. apply letter_not_whitespace; exact H.
Qed.

Lemma stops_app p a b : a <> [] -> stops p a -> stops p (a ++ b).
Proof. destruct a; [congruence | intros _ H; exact H]. Qed.

Lemma stops_after p q a b :
  (forall c, p c = true -> q c = false) ->
  forallb p a = true -> stops q b -> stops q (a ++ b).
Proof.
  intros Hpq Ha Hb. destruct a as [|c a]; [exact Hb|].
  simpl in *. apply andb_prop in Ha as [Hc _]. apply Hpq; exact Hc.
Qed.

Lemma match_frequency_app ds w2 u w :
  ds <> [] -> all_digits ds -> all_whitespace w2 -> spells u w ->
  match_frequency (ds ++ w2 ++ w) = Some (ds, w).
Proof.
  intros Hne Hd Hw2 Hu. unfold match_frequency.
  destruct (spells_lower u w Hu) as (_ & Hl & _).
  destruct (letters_stop w Hl) as (Sw & Sd & _).
  rewrite span_app; [| exact Hd |].
  - destruct ds as [|d ds]; [congruence|].
    rewrite drop_while_app by assumption.
    rewrite (spells_unit_word u w Hu). reflexivity.
  - apply stops_after with (p := is_whitespace);
      [exact whitespace_not_digit | exact Hw2 | exact Sd].
Qed.

Lemma match_frequency_split s ds w :
  match_frequency s = Some (ds, w) ->
  exists w2 u, s = ds ++ w2 ++ w
               /\ ds <> [] /\ all_digits ds /\ all_whitespace w2 /\ spells u w.
Proof.
  unfold match_frequency. destruct (span is_digit s) as [a b] eqn:E.
  destruct a as [|d a]; [discriminate|].
  destruct (existsb _ unit_words) eqn:Hu; [|discriminate].
  intros H; inversion H; subst; clear H.
  destruct (drop_while_split is_whitespace b) as (w2 & Eb & Hw2 & _).
  destruct (unit_word_spells _ Hu) as (u & Hs).
  exists w2, u. split.
  - rewrite <- Eb. eapply span_split; exact E.
  - split; [discriminate|]. split; [eapply span_all; exact E|].
    split; assumption.
Qed.

Lemma replace_every_keep c s :
  is_whitespace c = true \/ is_digit c = true ->
  replace_every (c :: s) = c :: s.
Proof.
  intros H. unfold replace_every. cbn [str list_ascii_of_string map ci_strip_prefix].
  replace (canonicalize (N_of_ascii "e") =? canonicalize c)%N with false;
    [reflexivity|].
  symmetry. apply N.eqb_neq. change (canonicalize (N_of_ascii "e")) with 69%N.
  unfold canonicalize, is_ascii_lower.
  destruct H as [H|H].
  - unfold is_whitespace in H.
    destruct ((97 <=? c) && (c <=? 122))%N eqn:Hc; unbool;
      repeat match goal with
             | H : (_ || _)%bool = true |- _ => apply orb_prop in H as [H|H]
             end; unbool; lia.
  - unfold is_digit in H.
    destruct ((97 <=? c) && (c <=? 122))%N eqn:Hc; unbool; lia.
Qed.

Lemma replace_every_strip e ws rest :
  ci_equal (str "every") e = true -> ws <> [] -> all_whitespace ws ->
  stops is_whitespace rest ->
  replace_every (e ++ ws ++ rest) = rest.
Proof.
  intros He Hne Hws Hrest. unfold replace_every.
  rewrite (ci_strip_prefix_app _ _ _ He), span_app by assumption.
  destruct ws; [congruence | reflexivity].
Qed.

Lemma replace_every_split s :
  exists pre, s = pre ++ replace_every s /\ every_token pre.
Proof.
  unfold replace_every.
  destruct (ci_strip_prefix (str "every") s) as [rest|] eqn:E.
  - destruct (ci_strip_prefix_split _ _ _ E) as (e & Es & He).
    destruct (span is_whitespace rest) as [ws rest'] eqn:Ew.
    destruct ws as [|c ws].
    + exists []. split; [reflexivity | constructor].
    + exists (e ++ c :: ws). split.
      * rewrite <- app_assoc, <- (span_split _ _ _ _ Ew). exact Es.
      * constructor; [exact He | discriminate | eapply span_all; exact Ew].
  - exists []. split; [reflexivity | constructor].
Qed.

(** What is left of a well-formed expression after [replace] and [trim]:
    the digits, the whitespace after them, and the unit. *)
Lemma normalized_form pre w1 ds w2 w w3 u :
  every_token pre ->
  all_whitespace w1 -> all_whitespace w2 -> all_whitespace w3 ->
  ds <> [] -> all_digits ds -> spells u w ->
  trim (replace_every (pre ++ w1 ++ ds ++ w2 ++ w ++ w3)) = ds ++ w2 ++ w.
Proof.
  intros Hpre H1 H2 H3 Hne Hd Hu.
  destruct (spells_lower u w Hu) as (_ & Hl & Hwne).
  destruct (letters_stop w Hl) as (_ & _ & Srev).
  set (core := ds ++ w2 ++ w).
  assert (Score : stops is_whitespace core).
  { unfold core. apply stops_app; [exact Hne|].
    destruct ds as [|d ds]; [congruence|]. simpl in *.
    apply andb_prop in Hd as [Hd _]. apply digit_not_whitespace; exact Hd. }
  assert (Srcore : stops is_whitespace (rev core)).
  { unfold core. rewrite !rev_app_distr, <- app_assoc.
    apply stops_app; [|exact Srev].
    intros E. apply (f_equal (@rev _)) in E. rewrite rev_involutive in E.
    exact (Hwne E). }
  assert (Hcne : core <> []) by (unfold core; destruct ds; [congruence | discriminate]).
  assert (Es : pre ++ w1 ++ ds ++ w2 ++ w ++ w3 = pre ++ w1 ++ core ++ w3).
  { unfold core. rewrite <- !app_assoc. reflexivity. }
  rewrite Es. clear Es.
  destruct Hpre as [|e ws He Hwsne Hws].
  - assert (Ek : replace_every ([] ++ w1 ++ core ++ w3) = w1 ++ core ++ w3).
    { simpl. destruct w1 as [|c w1].
      - destruct core as [|c core'] eqn:Ec; [congruence|]. simpl.
        apply replace_every_keep. right.
        unfold core in Ec. destruct ds as [|d ds']; [congruence|].
        simpl in Ec. inversion Ec; subst. simpl in Hd.
        apply andb_prop in Hd as [Hd _]. exact Hd.
      - simpl. apply replace_every_keep. left.
        simpl in H1. apply andb_prop in H1 as [H1 _]. exact H1. }
    rewrite Ek. apply trim_core; assumption.
  - replace ((e ++ ws) ++ w1 ++ core ++ w3) with (e ++ (ws ++ w1) ++ core ++ w3)
      by (rewrite <- !app_assoc; reflexivity).
    rewrite replace_every_strip.
    + apply (trim_core [] core w3); try assumption. reflexivity.
    + exact He.
    + destruct ws; [congruence | discriminate].
    + unfold all_whitespace in *. rewrite forallb_app, Hws, H1. reflexivity.
    + apply stops_app; assumption.
Qed.

(** The [switch] on the lower-cased unit. *)
Lemma unit_switch_ms u w (value : Z) :
  toLowerCase w = singular u \/ toLowerCase w = plural u ->
  (let unit := toLowerCase w in
   if is_word unit "second" || is_word unit "seconds"
   then Normal (value * 1000)%Z
   else if is_word unit "minute" || is_word unit "minutes"
   then Normal (value * 60 * 1000)%Z
   else if is_word unit "hour" || is_word unit "hours"
   then Normal (value * 60 * 60 * 1000)%Z
   else if is_word unit "day" || is_word unit "days"
   then Normal (value * 24 * 60 * 60 * 1000)%Z
   else if is_word unit "week" || is_word unit "weeks"
   then Normal (value * 7 * 24 * 60 * 60 * 1000)%Z
   else if is_word unit "month" || is_word unit "months"
   then Normal (value * 30 * 24 * 60 * 60 * 1000)%Z
   else Throw (unsupported_unit unit))
  = Normal (value * unit_ms u)%Z.
Proof.
  intros [E|E]; cbv zeta; rewrite E; destruct u;
    repeat match goal with
           | |- context [is_word ?a ?b] =>
               let r := eval vm_compute in (is_word a b) in
               change (is_word a b) with r
           end;
    cbn [orb]; f_equal; unfold unit_ms, day_ms, hour_ms; lia.
Qed.

Lemma unit_switch_days u w (value : Z) :
  toLowerCase w = singular u \/ toLowerCase w = plural u ->
  (let unit := toLowerCase w in
   if is_word unit "second" || is_word unit "seconds"
   then Normal (DividedDays value (24 * 60 * 60))
   else if is_word unit "minute" || is_word unit "minutes"
   then Normal (DividedDays value (24 * 60))
   else if is_word unit "hour" || is_word unit "hours"
   then Normal (DividedDays value 24)
   else if is_word unit "day" || is_word unit "days"
   then Normal (WholeDays value)
   else if is_word unit "week" || is_word unit "weeks"
   then Normal (WholeDays (value * 7))
   else if is_word unit "month" || is_word unit "months"
   then Normal (WholeDays (value * 30))
   else Throw (unsupported_unit unit))
  = Normal (unit_days value u).
Proof.
  intros [E|E]; cbv zeta; rewrite E; destruct u;
    repeat match goal with
           | |- context [is_word ?a ?b] =>
               let r := eval vm_compute in (is_word a b) in
               change (is_word a b) with r
           end;
    cbn [orb]; reflexivity.
Qed.

(** Every well-formed expression parses, to the product of its integer
    and the length of its unit. *)
Lemma parse_sound s n u :
  frequency_form s n u ->
  parseFrequencyToMilliseconds s = Normal (n * unit_ms u)%Z
  /\ parseFrequencyToDays s = Normal (unit_days n u).
Proof.
  intros (pre & w1 & ds & w2 & w & w3 & Es & Hpre & H1 & H2 & H3 & Hne & Hd & Hn & Hu).
  unfold parseFrequencyToMilliseconds, parseFrequencyToDays.
  cbv zeta. subst s.
  rewrite (normalized_form pre w1 ds w2 w w3 u) by assumption.
  rewrite (match_frequency_app ds w2 u w) by assumption.
  rewrite Hn. destruct (spells_lower u w Hu) as (Hl & _).
  split; [apply (unit_switch_ms u w n Hl) | apply (unit_switch_days u w n Hl)].
Qed.

(** Every expression the pattern matches after [replace] and [trim] is
    well-formed. *)
Lemma matched_form s ds w :
  match_frequency (trim (replace_every s)) = Some (ds, w) ->
  exists u, frequency_form s (parseInt ds) u.
Proof.
  intros Hm.
  destruct (match_frequency_split _ _ _ Hm) as (w2 & u & Et & Hne & Hd & H2 & Hu).
  destruct (trim_split (replace_every s)) as (w1 & w3 & Er & H1 & H3 & _).
  destruct (replace_every_split s) as (pre & Es & Hpre).
  exists u, pre, w1, ds, w2, w, w3.
  split.
  - rewrite Es at 1. rewrite Er at 1. rewrite Et. rewrite <- !app_assoc. reflexivity.
  - repeat split; assumption.
Qed.

Lemma parse_ms_throws_iff s :
  throws (parseFrequencyToMilliseconds s) <-> ~ exists n u, frequency_form s n u.
Proof.
  split.
  - intros Ht (n & u & Hf). destruct (parse_sound s n u Hf) as [E _].
    rewrite E in Ht. exact Ht.
  - intros Hno. unfold parseFrequencyToMilliseconds. cbv zeta.
    destruct (match_frequency (trim (replace_every s))) as [[ds w]|] eqn:Hm;
      [|exact I].
    exfalso. destruct (matched_form s ds w Hm) as (u & Hf).
    apply Hno. exists (parseInt ds), u. exact Hf.
Qed.

Lemma parse_days_throws_iff s :
  throws (parseFrequencyToDays s) <-> ~ exists n u, frequency_form s n u.
Proof.
  split.
  - intros Ht (n & u & Hf). destruct (parse_sound s n u Hf) as [_ E].
    rewrite E in Ht. exact Ht.
  - intros Hno. unfold parseFrequencyToDays. cbv zeta.
    destruct (match_frequency (trim (replace_every s))) as [[ds w]|] eqn:Hm;
      [|exact I].
    exfalso. destruct (matched_form s ds w Hm) as (u & Hf).
    apply Hno. exists (parseInt ds), u. exact Hf.
Qed.

Lemma spells_singular u : spells u (singular u).
Proof. left. destruct u; reflexivity. Qed.

Lemma spells_plural u : spells u (plural u).
Proof. right. destruct u; reflexivity. Qed.

Lemma every_token_literal : every_token (str "every ").
Proof.
  change (str "every ") with (str "every" ++ str " ").
  constructor; [reflexivity | discriminate | reflexivity].
Qed.

(** The decimal spelling of [n], a space and a spelling of [u], with or
    without a leading "every", is a well-formed expression of value [n]. *)
Lemma written_form (n : N) u w :
  spells u w ->
  frequency_form (N_toString n ++ str " " ++ w) (Z.of_N n) u
  /\ frequency_form (str "every " ++ N_toString n ++ str " " ++ w) (Z.of_N n) u.
Proof.
  intros Hu. destruct (N_toString_spec n) as (Hne & Hd & Hv). split.
  - exists [], [], (N_toString n), (str " "), w, [].
    rewrite app_nil_r. repeat split; try assumption; try reflexivity. constructor.
  - exists (str "every "), [], (N_toString n), (str " "), w, [].
    rewrite app_nil_r. repeat split; try assumption; try reflexivity.
    apply every_token_literal.
Qed.

(** ** Properties of the frequency model *)

(** C7, as the specification states it, fails on the expression "0 days":
    the specification counts an integer that is not positive among the
    failures, and [parseFrequencyToMilliseconds] returns 0 for it. *)
Lemma zero_days_is_not_rejected :
  ~ (throws (parseFrequencyToMilliseconds (str "0 days"))
     <-> spec_rejects (str "0 days")).
Proof.
  intros [_ H]. apply H. right. exists 0%Z, day. split; [|lia].
  exists [], [], (str "0"), (str " "), (str "days"), [].
  repeat split; try reflexivity; try discriminate.
  - constructor.
  - right; reflexivity.
Qed.

(** C7, amended: [parseFrequencyToMilliseconds] and [parseFrequencyToDays]
    throw exactly when the expression is not an optional leading "every"
    followed by an integer and a recognized unit; the integer zero is
    accepted and gives the duration zero; "not a frequency" is rejected. *)
Theorem parse_throws_exactly_on_malformed :
  forall s,
    (throws (parseFrequencyToMilliseconds s) <-> ~ exists n u, frequency_form s n u)
    /\ (throws (parseFrequencyToDays s) <-> ~ exists n u, frequency_form s n u)
    /\ parseFrequencyToMilliseconds (str "0 days") = Normal 0%Z
    /\ parseFrequencyToMilliseconds (str "not a frequency")
       = Throw (invalid_format (str "not a frequency"))
    /\ parseFrequencyToDays (str "not a frequency")
       = Throw (invalid_format (str "not a frequency")).
Proof.
  intros s. split; [apply parse_ms_throws_iff|].
  split; [apply parse_days_throws_iff|].
  repeat split; reflexivity.
Qed.

(** C8: for every integer [n] and every unit, the singular and the plural
    spelling, with or without a leading "every", parse to the same
    duration, [n] times the length of the unit; a week is 7 times 24
    hours and a month 30 times 24 hours. *)
Theorem parse_same_for_singular_plural_every :
  forall (n : N) (u : TimeUnit),
    let duration := Normal (Z.of_N n * unit_ms u)%Z in
    parseFrequencyToMilliseconds (N_toString n ++ str " " ++ singular u) = duration
    /\ parseFrequencyToMilliseconds (N_toString n ++ str " " ++ plural u) = duration
    /\ parseFrequencyToMilliseconds
         (str "every " ++ N_toString n ++ str " " ++ singular u) = duration
    /\ parseFrequencyToMilliseconds
         (str "every " ++ N_toString n ++ str " " ++ plural u) = duration
    /\ unit_ms week = (7 * (24 * (60 * 60 * 1000)))%Z
    /\ unit_ms month = (30 * (24 * (60 * 60 * 1000)))%Z
    /\ parseFrequencyToMilliseconds (str "1 week") = Normal (7 * (24 * (60 * 60 * 1000)))%Z
    /\ parseFrequencyToMilliseconds (str "1 month") = Normal (30 * (24 * (60 * 60 * 1000)))%Z.
Proof.
  intros n u duration.
  destruct (written_form n u (singular u) (spells_singular u)) as [F1 F2].
  destruct (written_form n u (plural u) (spells_plural u)) as [F3 F4].
  repeat split;
    try (apply parse_sound; assumption);
    reflexivity.
Qed.

(** ** Properties of the due evaluator *)

(** C3, as the specification states it, fails: [isTaskDue] and
    [getDaysOverdue] take the task only and read the clock themselves, so
    the same task evaluates differently at two readings of the clock. *)
Lemma due_evaluation_reads_the_clock :
  ~ reads_only_its_argument isTaskDue /\ ~ reads_only_its_argument getDaysOverdue.
Proof.
  split; intros H;
    specialize (H (new_task "7 days" 0) (world_at 0) (world_at (8 * day_ms)));
    discriminate H.
Qed.

(** C3, amended: [isTaskDue] and [getDaysOverdue] read the clock through
    [Date.now()] and nothing else of the world: at equal readings of the
    clock, the same task gives the same result. *)
Theorem due_evaluation_depends_on_clock_only :
  forall task w1 w2,
    Utils.Date_now w1 = Utils.Date_now w2 ->
    isTaskDue task w1 = isTaskDue task w2
    /\ getDaysOverdue task w1 = getDaysOverdue task w2.
Proof.
  intros task w1 w2 E. unfold isTaskDue, getDaysOverdue.
  rewrite E. split; reflexivity.
Qed.

Lemma due_evaluation_depends_on_clock_only_witness :
  let task := new_task "7 days" 0 in
  let w1 := {| Utils.Date_now := 8 * day_ms; tasks := [task]; messages := [] |} in
  let w2 := {| Utils.Date_now := 8 * day_ms; tasks := []; messages := [str "hello"] |} in
  isTaskDue task w1 = isTaskDue task w2
  /\ getDaysOverdue task w1 = getDaysOverdue task w2.
Proof.
  intros task w1 w2.
  apply (due_evaluation_depends_on_clock_only task w1 w2).
  reflexivity.
Defined.

(** C5: for a task whose frequency parses, [isTaskDue] returns true
    exactly when the time elapsed since the reference, the last completion
    if there is one and the creation otherwise, is at least the parsed
    duration. *)
Theorem isTaskDue_iff_elapsed_reaches_frequency :
  forall task w frequencyMs,
    parseFrequencyToMilliseconds (Utils.frequency task) = Normal frequencyMs ->
    let reference :=
      match lastCompleted task with
      | Some completed => completed
      | None => createdAt task
      end in
    exists due,
      isTaskDue task w = Normal due
      /\ (due = true <-> (Utils.Date_now w - reference >= frequencyMs)%Z).
Proof.
  intros task w ms E reference. unfold isTaskDue. rewrite E.
  eexists; split; [reflexivity|].
  unfold referenceDate. fold reference. rewrite Z.leb_le. lia.
Qed.

(** The instance of the specification: frequency "7 days", no completion;
    created exactly 7 times 24 hours ago the task is due, one second
    later than that it is not. *)
Lemma isTaskDue_iff_elapsed_reaches_frequency_witness :
  let created := 1700000000000%Z in
  isTaskDue (new_task "7 days" created) (world_at (created + 7 * day_ms))
  = Normal true
  /\ isTaskDue (new_task "7 days" created) (world_at (created + 7 * day_ms - 1000))
     = Normal false.
Proof.
  intros created. split.
  - destruct (isTaskDue_iff_elapsed_reaches_frequency
                (new_task "7 days" created) (world_at (created + 7 * day_ms))
                (7 * day_ms) eq_refl) as (due & E & Hd).
    rewrite E. f_equal. apply Hd. vm_compute. discriminate.
  - destruct (isTaskDue_iff_elapsed_reaches_frequency
                (new_task "7 days" created)
                (world_at (created + 7 * day_ms - 1000))
                (7 * day_ms) eq_refl) as (due & E & Hd).
    rewrite E. f_equal. destruct due; [|reflexivity].
    exfalso. destruct Hd as [Hd _]. specialize (Hd eq_refl).
    vm_compute in Hd. apply Hd. reflexivity.
Defined.



(** ** The steps of a workflow *)

Lemma delivered_app a b : delivered (a ++ b) = delivered a ++ delivered b.
Proof. apply flat_map_app. Qed.

Lemma checks_app a b : checks (a ++ b) = checks a ++ checks b.
Proof. apply flat_map_app. Qed.

Lemma waits_app a b : waits (a ++ b) = waits a ++ waits b.
Proof. apply flat_map_app. Qed.

Lemma launches_app a b : launches (a ++ b) = launches a ++ launches b.
Proof. apply flat_map_app. Qed.

Section StepFacts.

Variable host : Host.

(** A body that returns is run once. *)
Lemma step_do_returns {A} name (body : M A) tr a tr' :
  body tr = (Normal a, tr') -> step_do host name body tr = (Normal a, tr').
Proof.
  intros E. unfold step_do. destruct (step_retries host); simpl; rewrite E; reflexivity.
Qed.

Lemma attempts_send p retries :
  forall tr, exists r evs,
    attempts retries (TaskReminderWorkflow.sendReminderMessage host p) tr
    = (r, tr ++ evs)
    /\ match r with
       | Normal _ => send_events p true evs
       | Throw e => send_events p false evs /\ send_failure (error_message e)
       end.
Proof.
  induction retries as [|retries IH]; intros tr;
    cbn [attempts]; unfold TaskReminderWorkflow.sendReminderMessage at 1;
    cbv zeta;
    match goal with
    | |- context [add_reminder host tr ?rq] =>
        set (request := rq); destruct (ok (add_reminder host tr request)) eqn:Hok
    end; cbn [negb].
  - eexists; eexists; split; [reflexivity|]. constructor; [exact Hok | reflexivity].
  - eexists; eexists; split; [reflexivity|]. split.
    + apply send_exhausted; [exact Hok | reflexivity].
    + eexists; reflexivity.
  - eexists; eexists; split; [reflexivity|]. constructor; [exact Hok | reflexivity].
  - destruct (IH (tr ++ [SendReminder p request (add_reminder host tr request)]))
      as (r & evs & E & H).
    exists r, (SendReminder p request (add_reminder host tr request) :: evs).
    split.
    + rewrite E, <- app_assoc. reflexivity.
    + destruct r as [a|e].
      * apply send_refused; [exact Hok | reflexivity | exact H].
      * destruct H as [H Hf].
        split; [apply send_refused; [exact Hok | reflexivity | exact H] | exact Hf].
Qed.

Lemma send_step name p tr :
  exists r evs,
    step_do host name (TaskReminderWorkflow.sendReminderMessage host p) tr
    = (r, tr ++ evs)
    /\ match r with
       | Normal _ => send_events p true evs
       | Throw e => send_events p false evs /\ send_failure (error_message e)
       end.
Proof. apply attempts_send. Qed.

(** [checkTaskStillDue] never throws, so its step is never retried. *)
Lemma check_step name task tr :
  step_do host name (TaskReminderWorkflow.checkTaskStillDue host task) tr
  = (Normal (still_due (check_task host tr task)),
     tr ++ [CheckTask task (check_task host tr task)]).
Proof.
  apply step_do_returns. unfold TaskReminderWorkflow.checkTaskStillDue, still_due.
  cbv zeta. destruct (negb (check_ok (check_task host tr task))); reflexivity.
Qed.

End StepFacts.

(** *** What the events of a send step show *)

Lemma send_events_sends p accepted evs :
  send_events p accepted evs -> forallb is_send evs = true.
Proof. induction 1; simpl; auto. Qed.

Lemma send_events_delivered p accepted evs :
  send_events p accepted evs ->
  delivered evs
  = if accepted then [(sp_reminderLevel p, sp_daysOverdue p)] else [].
Proof.
  induction 1 as [rq resp Hok _|rq resp Hok _|rq resp accepted evs Hok _ _ IH]; simpl.
  - rewrite Hok. reflexivity.
  - rewrite Hok. reflexivity.
  - rewrite Hok. exact IH.
Qed.

Lemma sends_checks evs : forallb is_send evs = true -> checks evs = [].
Proof.
  induction evs as [|e evs IH]; simpl; [reflexivity|].
  intros H. apply andb_prop in H as [He H]. destruct e; try discriminate.
  apply IH; exact H.
Qed.

Lemma sends_waits evs : forallb is_send evs = true -> waits evs = [].
Proof.
  induction evs as [|e evs IH]; simpl; [reflexivity|].
  intros H. apply andb_prop in H as [He H]. destruct e; try discriminate.
  apply IH; exact H.
Qed.

Lemma sends_no_check evs :
  forallb is_send evs = true -> forallb (fun e => negb (is_check e)) evs = true.
Proof.
  induction evs as [|e evs IH]; simpl; [reflexivity|].
  intros H. apply andb_prop in H as [He H]. destruct e; try discriminate.
  apply IH; exact H.
Qed.

Lemma sends_no_sleep evs :
  forallb is_send evs = true -> forallb (fun e => negb (is_sleep e)) evs = true.
Proof.
  induction evs as [|e evs IH]; simpl; [reflexivity|].
  intros H. apply andb_prop in H as [He H]. destruct e; try discriminate.
  apply IH; exact H.
Qed.

(** Where the first event of a kind is. *)
Lemma split_first (P : Event -> bool) a x b :
  forallb (fun e => negb (P e)) a = true -> P x = true ->
  forall pre y post,
    P y = true -> a ++ x :: b = pre ++ y :: post ->
    (pre = a /\ y = x /\ post = b)
    \/ (exists mid, pre = a ++ x :: mid /\ b = mid ++ y :: post).
Proof.
  intros Ha Hx. induction a as [|e a IH]; intros pre y post Hy E.
  - destruct pre as [|e' pre]; simpl in E; inversion E; subst.
    + left; auto.
    + right. exists pre. auto.
  - simpl in Ha. apply andb_prop in Ha as [He Ha].
    destruct pre as [|e' pre]; simpl in E; inversion E; subst.
    + rewrite Hy in He. discriminate.
    + destruct (IH Ha pre y post Hy H1) as [(-> & -> & ->)|(mid & -> & ->)].
      * left; auto.
      * right. exists mid. auto.
Qed.

Lemma no_occurrence (P : Event -> bool) a pre y post :
  forallb (fun e => negb (P e)) a = true -> P y = true ->
  a = pre ++ y :: post -> False.
Proof.
  intros Ha Hy ->. rewrite forallb_app in Ha. apply andb_prop in Ha as [_ Ha].
  simpl in Ha. rewrite Hy in Ha. discriminate.
Qed.

(** ** The runs of the escalation workflow *)

Section RunFacts.

Variable host : Host.
Variable payload : TaskReminderParams.

Lemma run_initial_shape :
  reminderLevel payload = initial ->
  exists result tr,
    TaskReminderWorkflow.run host payload [] = (Normal result, tr)
    /\ initial_run host payload result tr.
Proof.
  intros Hlevel.
  unfold TaskReminderWorkflow.run, try_catch, bind. rewrite Hlevel.
  destruct (send_step host "send-reminder"
              (TaskReminderWorkflow.send_params payload initial
                 (or_zero (daysOverdue payload))) [])
    as (r1 & e1 & E1 & H1).
  rewrite E1. cbn [app]. destruct r1 as [m1|err1].
  2:{ destruct H1 as [H1 F1]. eexists; eexists; split; [reflexivity|].
      apply stop_initial_refused; assumption. }
  unfold step_sleep, emit. rewrite check_step.
  set (r1 := check_task host _ (taskId payload)).
  destruct (still_due r1) eqn:D1.
  2:{ eexists; eexists; split; [reflexivity|].
      rewrite <- app_assoc. apply stop_not_due; [assumption | reflexivity | exact D1]. }
  match goal with
  | |- context [step_do host "send-followup" ?body ?tr] =>
      destruct (send_step host "send-followup"
                  (TaskReminderWorkflow.send_params payload followup
                     (or_zero (daysOverdue payload) + 1)) tr)
        as (r2 & e2 & E2 & H2)
  end.
  rewrite E2. destruct r2 as [m2|err2].
  2:{ destruct H2 as [H2 F2]. eexists; eexists; split; [reflexivity|].
      rewrite <- !app_assoc. apply stop_followup_refused; auto. }
  rewrite check_step.
  match goal with
  | |- context [still_due ?c] =>
      lazymatch c with
      | r1 => fail
      | _ => set (r2 := c)
      end
  end.
  destruct (still_due r2) eqn:D2.
  2:{ eexists; eexists; split; [reflexivity|].
      rewrite <- !app_assoc. cbn [app].
      apply stop_not_due_after_followup; auto.
      subst r2. rewrite <- !app_assoc. reflexivity. }
  match goal with
  | |- context [step_do host "send-escalation" ?body ?tr] =>
      destruct (send_step host "send-escalation"
                  (TaskReminderWorkflow.send_params payload escalation
                     (or_zero (daysOverdue payload) + 3)) tr)
        as (r3 & e3 & E3 & H3)
  end.
  rewrite E3. destruct r3 as [m3|err3].
  - eexists; eexists; split; [reflexivity|].
    rewrite <- !app_assoc. cbn [app].
    apply stop_escalated; auto.
    subst r2. rewrite <- !app_assoc. reflexivity.
  - destruct H3 as [H3 F3]. eexists; eexists; split; [reflexivity|].
    rewrite <- !app_assoc. cbn [app].
    apply stop_escalation_refused; auto.
    subst r2. rewrite <- !app_assoc. reflexivity.
Qed.

(** At the other levels the run is its first step. *)
Lemma run_other_shape :
  reminderLevel payload <> initial ->
  exists result tr accepted,
    TaskReminderWorkflow.run host payload [] = (Normal result, tr)
    /\ send_events
         (TaskReminderWorkflow.send_params payload (reminderLevel payload)
            (or_zero (daysOverdue payload))) accepted tr.
Proof.
  intros Hlevel.
  unfold TaskReminderWorkflow.run, try_catch, bind.
  destruct (send_step host "send-reminder"
              (TaskReminderWorkflow.send_params payload (reminderLevel payload)
                 (or_zero (daysOverdue payload))) [])
    as (r1 & e1 & E1 & H1).
  rewrite E1. cbn [app]. destruct r1 as [m1|err1].
  - destruct (reminderLevel payload); [congruence| |];
      eexists; eexists; exists true; split; try reflexivity; exact H1.
  - destruct H1 as [H1 _].
    eexists; eexists; exists false; split; [reflexivity | exact H1].
Qed.

End RunFacts.

(** *** Reading a trace event by event *)

Lemma checks_sleep step duration l : checks (Sleep step duration :: l) = checks l.
Proof. reflexivity. Qed.

Lemma checks_check task r l : checks (CheckTask task r :: l) = r :: checks l.
Proof. reflexivity. Qed.

Lemma delivered_sleep step duration l :
  delivered (Sleep step duration :: l) = delivered l.
Proof. reflexivity. Qed.

Lemma delivered_check task r l : delivered (CheckTask task r :: l) = delivered l.
Proof. reflexivity. Qed.

Lemma waits_sleep step duration l :
  waits (Sleep step duration :: l) = duration :: waits l.
Proof. reflexivity. Qed.

Lemma waits_check task r l : waits (CheckTask task r :: l) = waits l.
Proof. reflexivity. Qed.

(** Replaces each send step of the context by what it shows. *)
Ltac read_send_steps :=
  repeat match goal with
         | H : send_events ?p ?accepted ?e |- _ =>
             let Hd := fresh "Hdelivered" in
             let Hs := fresh "Hsends" in
             pose proof (send_events_delivered p accepted e H) as Hd;
             pose proof (send_events_sends p accepted e H) as Hs;
             pose proof (sends_checks e Hs);
             pose proof (sends_waits e Hs);
             clear H
         end.

(** ** Properties of the escalation workflow *)

(** C1, as the specification states it, fails: when both due-checks
    report the task still due and the notifier refuses the Escalation
    reminder at every attempt of its step, the run delivers two reminders,
    the Initial and the FollowUp, and returns a failure. *)
Lemma refused_escalation_delivers_two_reminders :
  exists error tr,
    TaskReminderWorkflow.run escalation_refusing_host example_payload []
    = (Normal (TaskReminderWorkflow.RunFailed (str "task-1") error), tr)
    /\ daysOverdue example_payload = Some 2%Z
    /\ map reports_due (checks tr) = [true; true]
    /\ delivered tr = [(initial, 2%Z); (followup, 3%Z)].
Proof.
  eexists; eexists. split; [vm_compute; reflexivity|].
  repeat split; reflexivity.
Qed.

(** C1, amended: a run that is passed the overdue count [d], that
    completes (no reminder of it is refused at every attempt of its step),
    and whose two due-checks both report the task still due, delivers
    exactly three reminders: Initial with count [d], FollowUp with [d + 1]
    and Escalation with [d + 3], in this order, and no fourth. *)
Theorem still_due_twice_delivers_three_reminders :
  forall host payload d result tr,
    daysOverdue payload = Some d ->
    TaskReminderWorkflow.run host payload [] = (Normal result, tr) ->
    result = TaskReminderWorkflow.RunCompleted (taskId payload) (reminderLevel payload) ->
    map reports_due (checks tr) = [true; true] ->
    delivered tr = [(initial, d); (followup, d + 1)%Z; (escalation, d + 3)%Z].
Proof.
  intros host payload d result tr Hd Hrun Hres Hchecks.
  assert (Hlevel : reminderLevel payload = initial).
  { destruct (reminderLevel payload) eqn:L; [reflexivity | |];
      (destruct (run_other_shape host payload) as (res' & tr' & acc & E & Hs);
       [rewrite L; discriminate|];
       rewrite Hrun in E; inversion E; subst tr';
       apply send_events_sends, sends_checks in Hs;
       rewrite Hs in Hchecks; discriminate). }
  destruct (run_initial_shape host payload Hlevel) as (res' & tr' & E & Hshape).
  rewrite Hrun in E. inversion E; subst res' tr'. clear E.
  inversion Hshape; subst; try discriminate; read_send_steps;
    rewrite Hd in *; cbn [or_zero] in *;
    cbn [app] in *;
    repeat first [ rewrite checks_app in Hchecks
                 | rewrite checks_sleep in Hchecks
                 | rewrite checks_check in Hchecks ];
    repeat first [ rewrite delivered_app
                 | rewrite delivered_sleep
                 | rewrite delivered_check ];
    repeat match goal with
           | H : checks ?e = [] |- _ => rewrite H in Hchecks; clear H
           | H : delivered ?e = _ |- _ => rewrite H; clear H
           end;
    cbn [app map] in Hchecks; try discriminate.
  - (* the second check did not report the task due *)
    exfalso. inversion Hchecks as [[Hr1 Hr2]].
    unfold still_due, reports_due in *.
    match goal with
    | H : (if negb (check_ok ?r) then true else isDue ?r) = false |- _ =>
        destruct (check_ok r); simpl in *; congruence
    end.
  - (* three reminders *)
    reflexivity.
Qed.

Lemma still_due_twice_delivers_three_reminders_witness :
  let tr := snd (TaskReminderWorkflow.run (steady_host says_due) example_payload []) in
  delivered tr = [(initial, 2%Z); (followup, 3%Z); (escalation, 5%Z)].
Proof.
  intros tr.
  apply (still_due_twice_delivers_three_reminders
           (steady_host says_due) example_payload 2
           (TaskReminderWorkflow.RunCompleted (str "task-1") initial) tr);
    reflexivity.
Defined.

Ltac read_goal :=
  repeat first [ rewrite delivered_app | rewrite delivered_sleep
               | rewrite delivered_check
               | rewrite checks_app | rewrite checks_sleep | rewrite checks_check
               | rewrite waits_app | rewrite waits_sleep | rewrite waits_check ].

Ltac read_in H :=
  repeat first [ rewrite delivered_app in H | rewrite delivered_sleep in H
               | rewrite delivered_check in H
               | rewrite checks_app in H | rewrite checks_sleep in H
               | rewrite checks_check in H
               | rewrite waits_app in H | rewrite waits_sleep in H
               | rewrite waits_check in H ].

(** A send step makes at least one attempt. *)
Lemma send_events_head p accepted evs :
  send_events p accepted evs ->
  exists rq resp rest, evs = SendReminder p rq resp :: rest.
Proof. destruct 1; eexists; eexists; eexists; reflexivity. Qed.

(** The due-check that follows a send step and a wait. *)
Lemma check_after_wait e1 step duration task r rest pre task' r' post :
  forallb is_send e1 = true ->
  e1 ++ Sleep step duration :: CheckTask task r :: rest
  = pre ++ CheckTask task' r' :: post ->
  (pre = e1 ++ [Sleep step duration] /\ task' = task /\ r' = r /\ post = rest)
  \/ (exists mid, pre = e1 ++ Sleep step duration :: CheckTask task r :: mid
                  /\ rest = mid ++ CheckTask task' r' :: post).
Proof.
  intros Hs E.
  assert (Ha : forallb (fun e => negb (is_check e)) (e1 ++ [Sleep step duration])
               = true).
  { rewrite forallb_app, (sends_no_check e1 Hs). reflexivity. }
  replace (e1 ++ Sleep step duration :: CheckTask task r :: rest)
    with ((e1 ++ [Sleep step duration]) ++ CheckTask task r :: rest) in E
    by (rewrite <- app_assoc; reflexivity).
  destruct (split_first is_check (e1 ++ [Sleep step duration]) (CheckTask task r)
              rest Ha eq_refl pre (CheckTask task' r') post eq_refl E)
    as [(-> & Hy & ->)|(mid & -> & ->)].
  - left. inversion Hy; subst. auto.
  - right. exists mid. rewrite <- app_assoc. auto.
Qed.

Lemma no_check_in_sends e pre task r post :
  forallb is_send e = true -> e = pre ++ CheckTask task r :: post -> False.
Proof.
  intros Hs E.
  exact (no_occurrence is_check e pre (CheckTask task r) post
           (sends_no_check e Hs) eq_refl E).
Qed.

Lemma not_due_answer r :
  check_ok r = true -> isDue r = false -> still_due r = false.
Proof. unfold still_due. intros -> ->. reflexivity. Qed.

Lemma failed_answer r : check_ok r = false -> still_due r = true.
Proof. unfold still_due. intros ->. reflexivity. Qed.




(** C10: in every run, a due-check that the task store fails to answer
    makes [checkTaskStillDue] return true without throwing, so that its
    step is not retried, and the run goes on with the delivery of the
    next reminder, the FollowUp after the first check and the Escalation
    after the second. *)
Theorem failed_due_check_counts_as_still_due :
  forall host payload result tr pre task r post,
    TaskReminderWorkflow.run host payload [] = (Normal result, tr) ->
    tr = pre ++ CheckTask task r :: post ->
    check_ok r = false ->
    (forall name,
        step_do host name (TaskReminderWorkflow.checkTaskStillDue host task) pre
        = (Normal true, pre ++ [CheckTask task r]))
    /\ exists p rq resp post',
        post = SendReminder p rq resp :: post'
        /\ (p = TaskReminderWorkflow.send_params payload followup
                  (or_zero (daysOverdue payload) + 1)
            \/ p = TaskReminderWorkflow.send_params payload escalation
                     (or_zero (daysOverdue payload) + 3)).
Proof.
  intros host payload result tr pre task r post Hrun Etr Hfail.
  pose proof (failed_answer r Hfail) as Hstill.
  destruct (reminderLevel payload) eqn:Hlevel.
  2,3: exfalso;
       destruct (run_other_shape host payload) as (res' & tr' & acc & E & Hs);
       [rewrite Hlevel; discriminate|];
       rewrite Hrun in E; inversion E; subst tr';
       apply send_events_sends in Hs;
       exact (no_check_in_sends _ _ _ _ _ Hs Etr).
  destruct (run_initial_shape host payload Hlevel) as (res' & tr' & E & Hshape).
  rewrite Hrun in E. inversion E; subst res' tr'. clear E.
  assert (Hstep : forall h, r = check_task host h task ->
            forall name,
              step_do host name (TaskReminderWorkflow.checkTaskStillDue host task) h
              = (Normal true, h ++ [CheckTask task r])).
  { intros h Er name. rewrite check_step, <- Er, Hstill. reflexivity. }
  inversion Hshape as
    [ e1 error S1 F Eres Htr
    | e1 r1 S1 Er1 D1 Eres Htr
    | e1 r1 e2 error S1 Er1 D1 S2 F Eres Htr
    | e1 r1 e2 r2 S1 Er1 D1 S2 Er2 D2 Eres Htr
    | e1 r1 e2 r2 e3 error S1 Er1 D1 S2 Er2 D2 S3 F Eres Htr
    | e1 r1 e2 r2 e3 S1 Er1 D1 S2 Er2 D2 S3 Eres Htr ];
    rewrite Etr in Htr; cbn [app] in Htr;
    pose proof (send_events_sends _ _ _ S1) as Hs1.
  - exfalso. exact (no_check_in_sends _ _ _ _ _ Hs1 Etr).
  - exfalso.
    destruct (check_after_wait _ _ _ _ _ _ _ _ _ _ Hs1 Htr)
      as [(_ & _ & Er & _)|(mid & _ & Emid)].
    + congruence.
    + destruct mid; discriminate.
  - pose proof (send_events_sends _ _ _ S2) as Hs2.
    destruct (check_after_wait _ _ _ _ _ _ _ _ _ _ Hs1 Htr)
      as [(Epre & Etask & Er & Epost)|(mid & _ & Emid)].
    + split.
      * apply Hstep. rewrite Epre, Etask, Er. exact Er1.
      * destruct (send_events_head _ _ _ S2) as (rq & resp & rest & E2).
        eexists; exists rq, resp, rest. rewrite Epost. split; [exact E2 | left; reflexivity].
    + exfalso. exact (no_check_in_sends _ _ _ _ _ Hs2 Emid).
  - pose proof (send_events_sends _ _ _ S2) as Hs2.
    destruct (check_after_wait _ _ _ _ _ _ _ _ _ _ Hs1 Htr)
      as [(Epre & Etask & Er & Epost)|(mid & Epre & Emid)].
    + split.
      * apply Hstep. rewrite Epre, Etask, Er. exact Er1.
      * destruct (send_events_head _ _ _ S2) as (rq & resp & rest & E2).
        eexists; exists rq, resp, (rest ++ [Sleep (str "wait-for-escalation") (48 * 60 * 60);
                                      CheckTask (taskId payload) r2]).
        rewrite Epost, E2. split; [reflexivity | left; reflexivity].
    + exfalso.
      destruct (check_after_wait _ _ _ _ _ _ _ _ _ _ Hs2 Emid)
        as [(_ & _ & Er & _)|(mid' & _ & Emid')].
      * congruence.
      * destruct mid'; discriminate.
  - pose proof (send_events_sends _ _ _ S2) as Hs2.
    pose proof (send_events_sends _ _ _ S3) as Hs3.
    destruct (check_after_wait _ _ _ _ _ _ _ _ _ _ Hs1 Htr)
      as [(Epre & Etask & Er & Epost)|(mid & Epre & Emid)].
    + split.
      * apply Hstep. rewrite Epre, Etask, Er. exact Er1.
      * destruct (send_events_head _ _ _ S2) as (rq & resp & rest & E2).
        eexists; exists rq, resp, (rest ++ Sleep (str "wait-for-escalation") (48 * 60 * 60)
                                  :: CheckTask (taskId payload) r2 :: e3).
        rewrite Epost, E2. split; [reflexivity | left; reflexivity].
    + destruct (check_after_wait _ _ _ _ _ _ _ _ _ _ Hs2 Emid)
        as [(Emid' & Etask & Er & Epost)|(mid' & _ & Emid')].
      * split.
        -- apply Hstep. rewrite Epre, Emid', Etask, Er. exact Er2.
        -- destruct (send_events_head _ _ _ S3) as (rq & resp & rest & E3).
           eexists; exists rq, resp, rest. rewrite Epost.
           split; [exact E3 | right; reflexivity].
      * exfalso. exact (no_check_in_sends _ _ _ _ _ Hs3 Emid').
  - pose proof (send_events_sends _ _ _ S2) as Hs2.
    pose proof (send_events_sends _ _ _ S3) as Hs3.
    destruct (check_after_wait _ _ _ _ _ _ _ _ _ _ Hs1 Htr)
      as [(Epre & Etask & Er & Epost)|(mid & Epre & Emid)].
    + split.
      * apply Hstep. rewrite Epre, Etask, Er. exact Er1.
      * destruct (send_events_head _ _ _ S2) as (rq & resp & rest & E2).
        eexists; exists rq, resp, (rest ++ Sleep (str "wait-for-escalation") (48 * 60 * 60)
                                  :: CheckTask (taskId payload) r2 :: e3).
        rewrite Epost, E2. split; [reflexivity | left; reflexivity].
    + destruct (check_after_wait _ _ _ _ _ _ _ _ _ _ Hs2 Emid)
        as [(Emid' & Etask & Er & Epost)|(mid' & _ & Emid')].
      * split.
        -- apply Hstep. rewrite Epre, Emid', Etask, Er. exact Er2.
        -- destruct (send_events_head _ _ _ S3) as (rq & resp & rest & E3).
           eexists; exists rq, resp, rest. rewrite Epost.
           split; [exact E3 | right; reflexivity].
      * exfalso. exact (no_check_in_sends _ _ _ _ _ Hs3 Emid').
Qed.

Lemma failed_due_check_counts_as_still_due_witness :
  let host := steady_host store_failure in
  let tr := snd (TaskReminderWorkflow.run host example_payload []) in
  let pre := firstn 2 tr in
  let post := skipn 3 tr in
  (forall name,
      step_do host name
        (TaskReminderWorkflow.checkTaskStillDue host (str "task-1")) pre
      = (Normal true, pre ++ [CheckTask (str "task-1") store_failure]))
  /\ exists p rq resp post',
      post = SendReminder p rq resp :: post'
      /\ (p = TaskReminderWorkflow.send_params example_payload followup (2 + 1)
          \/ p = TaskReminderWorkflow.send_params example_payload escalation (2 + 3)).
Proof.
  intros host tr pre post.
  apply (failed_due_check_counts_as_still_due host example_payload
           (TaskReminderWorkflow.RunCompleted (str "task-1") initial)
           tr pre (str "task-1") store_failure post);
    reflexivity.
Defined.

(** ** Properties of the delivery bridge *)

(** C9, as the specification states it, fails: the text of each level
    starts with an emoji that the specification does not write, and the
    texts of FollowUp and Escalation say "days", not "day(s)". *)
Lemma reminder_text_is_not_the_spec_text :
  let text_of level :=
    reminderText (TaskReminderWorkflow.send_params example_payload level 2) in
  let spec_of level :=
    spec_text level (str "water plants") (str "7 days") 2 in
  text_of initial <> spec_of initial
  /\ text_of followup <> spec_of followup
  /\ text_of escalation <> spec_of escalation.
Proof. repeat split; discriminate. Qed.

(** C9, amended: the text posted for a reminder is the text of the
    specification for its level, after an emoji and a space (a bell for
    Initial, an alarm clock for FollowUp, a rotating light for
    Escalation), and with "day" after an overdue count of 1 and "days"
    after any other count where the specification writes "day(s)". *)
Theorem reminder_text_is_emoji_then_spec_text :
  forall host p tr,
    exists rq resp,
      snd (TaskReminderWorkflow.sendReminderMessage host p tr)
      = tr ++ [SendReminder p rq resp]
      /\ rq_reminderLevel rq = sp_reminderLevel p
      /\ let day_word := if (sp_daysOverdue p =? 1)%Z then str "day" else str "days" in
         let body := spec_text_with day_word (sp_reminderLevel p)
                       (sp_taskName p) (sp_frequency p) (sp_daysOverdue p) in
         text rq = match sp_reminderLevel p with
                   | initial => [55357; 56596]%N ++ str " " ++ body
                   | followup => [9200]%N ++ str " " ++ body
                   | escalation => [55357; 57000]%N ++ str " " ++ body
                   end.
Proof.
  intros host p tr. unfold TaskReminderWorkflow.sendReminderMessage. cbv zeta.
  match goal with
  | |- context [add_reminder host tr ?request] =>
      exists request, (add_reminder host tr request)
  end.
  split; [destruct (negb _); reflexivity|].
  split; [reflexivity|].
  cbn [text]. unfold reminderText, spec_text_with, plural_s.
  destruct (sp_reminderLevel p); [reflexivity| |];
    destruct (sp_daysOverdue p =? 1)%Z;
    cbn [emoji str list_ascii_of_string map app];
    repeat (rewrite <- ?app_assoc; cbn [app]); reflexivity.
Qed.

(** ** The passes of the batch workflow *)

Lemma forallb_is_create_app a b :
  forallb is_create a = true -> forallb is_create b = true ->
  forallb is_create (a ++ b) = true.
Proof. intros Ha Hb. rewrite forallb_app, Ha, Hb. reflexivity. Qed.

(** One pass launches every item once, in the order of the array, and
    returns one result for each. *)
Lemma launch_pass host prefix :
  forall batch tr, exists results evs,
    BatchTaskReminderWorkflow.promise_all_map
      (BatchTaskReminderWorkflow.launch host prefix) batch tr
    = (Normal results, tr ++ evs)
    /\ forallb is_create evs = true
    /\ launches evs
       = combine (map dt_id batch)
           (map BatchTaskReminderWorkflow.lr_success results)
    /\ List.length results = List.length batch.
Proof.
  induction batch as [|item batch IH]; intros tr.
  - exists [], []. rewrite app_nil_r. repeat split; reflexivity.
  - cbn [BatchTaskReminderWorkflow.promise_all_map].
    unfold BatchTaskReminderWorkflow.launch at 1. cbv zeta.
    match goal with
    | |- context [create host tr ?o] => set (options := o)
    end.
    destruct (create host tr options) as [instance|error] eqn:Hc;
      destruct (IH (tr ++ [Create options (create host tr options)]))
        as (results & evs & E & Hcreate & Hl & Hlen);
      rewrite Hc in E; rewrite E;
      eexists; exists (Create options (create host tr options) :: evs);
      rewrite Hc;
      (split; [rewrite <- app_assoc; reflexivity|]);
      (split; [exact Hcreate|]);
      (split; [cbn [launches flat_map]; fold (launches evs); rewrite Hl; reflexivity
              | simpl; f_equal; exact Hlen]).
Qed.

(** The filter by index keeps the batch whose launch failed. *)
Lemma failed_tasks_by_index :
  forall (batch : list DueTask)
         (results : list BatchTaskReminderWorkflow.LaunchResult) before,
    List.length results = List.length batch ->
    BatchTaskReminderWorkflow.filter_indexed
      (fun _ index => BatchTaskReminderWorkflow.not_success (before ++ results) index)
      batch (List.length before)
    = Normal (map fst
                (filter (fun tr => negb (BatchTaskReminderWorkflow.lr_success (snd tr)))
                   (combine batch results))).
Proof.
  induction batch as [|item batch IH]; intros results before Hlen.
  - reflexivity.
  - destruct results as [|r results]; [discriminate|].
    cbn [BatchTaskReminderWorkflow.filter_indexed].
    unfold BatchTaskReminderWorkflow.not_success at 1.
    rewrite nth_error_app2, Nat.sub_diag by lia. cbn [nth_error].
    replace (before ++ r :: results) with ((before ++ [r]) ++ results)
      by (rewrite <- app_assoc; reflexivity).
    replace (S (List.length before)) with (List.length (before ++ [r]))
      by (rewrite length_app; simpl; lia).
    rewrite IH by (simpl in Hlen; lia).
    cbn [combine filter snd].
    destruct (BatchTaskReminderWorkflow.lr_success r); reflexivity.
Qed.

Lemma combine_fst {A B} (a : list A) (b : list B) :
  List.length a = List.length b -> map fst (combine a b) = a.
Proof.
  revert b; induction a as [|x a IH]; intros [|y b] H; simpl in *;
    try discriminate; [reflexivity|].
  f_equal. apply IH. lia.
Qed.

Lemma outcomes_count (g : bool -> bool) (batch : list DueTask)
    (results : list BatchTaskReminderWorkflow.LaunchResult) :
  List.length results = List.length batch ->
  List.length (filter (fun o : jsstring * bool => g (snd o))
                 (combine (map dt_id batch)
                    (map BatchTaskReminderWorkflow.lr_success results)))
  = List.length (filter (fun r => g (BatchTaskReminderWorkflow.lr_success r)) results).
Proof.
  revert results; induction batch as [|item batch IH]; intros [|r results] H;
    simpl in *; try discriminate; [reflexivity|].
  destruct (g (BatchTaskReminderWorkflow.lr_success r)); simpl;
    rewrite IH by lia; reflexivity.
Qed.

Lemma failed_ids (batch : list DueTask)
    (results : list BatchTaskReminderWorkflow.LaunchResult) :
  List.length results = List.length batch ->
  map dt_id
    (map fst
       (filter (fun tr => negb (BatchTaskReminderWorkflow.lr_success (snd tr)))
          (combine batch results)))
  = map fst (failed (combine (map dt_id batch)
                       (map BatchTaskReminderWorkflow.lr_success results))).
Proof.
  unfold failed.
  revert results; induction batch as [|item batch IH]; intros [|r results] H;
    simpl in *; try discriminate; [reflexivity|].
  destruct (BatchTaskReminderWorkflow.lr_success r); simpl;
    rewrite IH by lia; reflexivity.
Qed.

(** ** Properties of the batch coordinator *)

(** C4, as the specification states it, fails: when the launch of a task
    fails and its retry succeeds, the result still counts the task as
    failed; the counts are those of the first pass. *)
Lemma recovered_launch_is_reported_failed :
  exists result tr,
    BatchTaskReminderWorkflow.run recovering_host (Some [due_task 1]) []
    = (Normal result, tr)
    /\ launches tr = [(str "task-1", false); (str "task-1", true)]
    /\ result = BatchTaskReminderWorkflow.Processed 1 0 1 (clock_after tr)
    /\ ~ reports_counts_after_retry [due_task 1] result tr.
Proof.
  eexists; eexists. split; [vm_compute; reflexivity|].
  split; [reflexivity|]. split; [reflexivity|].
  intros (_ & H & _). vm_compute in H. discriminate H.
Qed.

(** C4, amended: an empty batch is a no-op success.  For a batch that is
    not empty, every task is launched once, in order; if some launches
    failed, the workflow waits once (one [step.sleep] named
    "retry-delay", which is passed the number 300) and launches exactly
    the tasks whose launch failed, once each, in order; nothing else
    happens.
    The result reports the number of tasks, and the numbers of launches
    that succeeded and failed in the first pass: the outcome of the retry
    does not change them. *)
Theorem batch_retries_failed_once_and_reports_first_pass :
  forall host (dueTasks : list DueTask),
    exists result tr,
      BatchTaskReminderWorkflow.run host (Some dueTasks) [] = (Normal result, tr)
      /\ match dueTasks with
         | [] =>
             result = BatchTaskReminderWorkflow.NothingToProcess
                        (str "No tasks to process")
             /\ tr = []
         | _ :: _ =>
             exists first retry timestamp,
               forallb is_create first = true
               /\ forallb is_create retry = true
               /\ map fst (launches first) = map dt_id dueTasks
               /\ map fst (launches retry) = map fst (failed (launches first))
               /\ tr = first ++ match failed (launches first) with
                               | [] => []
                               | _ :: _ => Sleep (str "retry-delay") 300 :: retry
                               end
               /\ result = BatchTaskReminderWorkflow.Processed
                             (List.length dueTasks)
                             (List.length (succeeded (launches first)))
                             (List.length (failed (launches first)))
                             timestamp
         end.
Proof.
  intros host [|item batch].
  - eexists; eexists. split; [reflexivity|]. split; reflexivity.
  - set (dueTasks := item :: batch).
    destruct (launch_pass host "reminder-" dueTasks []) as (results & first & E1 & C1 & L1 & N1).
    cbn [app] in E1.
    assert (Hids : map fst (launches first) = map dt_id dueTasks).
    { rewrite L1. apply combine_fst. rewrite !length_map. congruence. }
    assert (Hok : List.length (succeeded (launches first))
                  = List.length (filter BatchTaskReminderWorkflow.lr_success results)).
    { rewrite L1. unfold succeeded.
      rewrite (outcomes_count (fun b => b) dueTasks results N1).
      f_equal. }
    assert (Hko : List.length (failed (launches first))
                  = List.length (filter (fun r => negb (BatchTaskReminderWorkflow.lr_success r))
                                   results)).
    { rewrite L1. unfold failed. apply (outcomes_count negb dueTasks results N1). }
    unfold BatchTaskReminderWorkflow.run. fold dueTasks.
    change (match dueTasks with [] => _ | _ :: _ => ?k end) with k.
    unfold bind at 1.
    rewrite (step_do_returns host "process-batch" _ [] results first E1).
    unfold bind at 1.
    destruct (failed (launches first)) as [|o failures] eqn:Hf.
    + (* every launch succeeded *)
      simpl in Hko. rewrite <- Hko. cbn [Nat.ltb Nat.leb].
      unfold ret. eexists; eexists. split; [reflexivity|].
      exists first, [], (Date_now host first). rewrite Hf.
      split; [exact C1|]. split; [reflexivity|]. split; [exact Hids|].
      split; [reflexivity|]. split; [symmetry; apply app_nil_r|].
      rewrite Hok. reflexivity.
    + (* some launches failed *)
      assert (Hpos : (0 <? List.length
                             (filter (fun r => negb (BatchTaskReminderWorkflow.lr_success r))
                                results))%nat = true).
      { rewrite <- Hko. reflexivity. }
      rewrite Hpos.
      unfold bind at 1. unfold step_sleep, emit.
      unfold bind at 1. unfold BatchTaskReminderWorkflow.lift.
      pose proof (failed_tasks_by_index dueTasks results [] N1) as Hfi.
      change ([] ++ results) with results in Hfi.
      change (List.length (@nil BatchTaskReminderWorkflow.LaunchResult))
        with 0%nat in Hfi.
      rewrite Hfi.
      set (failedTasks := map fst (filter _ (combine dueTasks results))).
      destruct (launch_pass host "reminder-retry-" failedTasks
                  (first ++ [Sleep (str "retry-delay") 300]))
        as (results2 & retry & E2 & C2 & L2 & N2).
      unfold bind at 1.
      rewrite (step_do_returns host "retry-failed" _ _ results2 _ E2).
      unfold ret. eexists; eexists. split; [reflexivity|].
      exists first, retry, (Date_now host ((first ++ [Sleep (str "retry-delay") 300]) ++ retry)).
      split; [exact C1|]. split; [exact C2|]. split; [exact Hids|].
      split.
      * rewrite L2, combine_fst by (rewrite !length_map; congruence).
        unfold failedTasks. rewrite (failed_ids dueTasks results N1), <- L1.
        reflexivity.
      * rewrite Hf. split; [rewrite <- app_assoc; reflexivity|].
        rewrite Hok, <- Hko. reflexivity.
Qed.

(** ** Worked examples *)

(** The batch of the specification: five due tasks, the launch of one of
    them always fails.  Four launches succeed at once, the failed one is
    retried once after the wait, and the result reports 4 and 1. *)
Example batch_of_five_with_one_refused :
  let batch := map due_task [1; 2; 3; 4; 5]%N in
  exists tr timestamp,
    BatchTaskReminderWorkflow.run (host_refusing (str "task-3")) (Some batch) []
    = (Normal (BatchTaskReminderWorkflow.Processed 5 4 1 timestamp), tr)
    /\ launches tr
       = [(str "task-1", true); (str "task-2", true); (str "task-3", false);
          (str "task-4", true); (str "task-5", true); (str "task-3", false)]
    /\ waits tr = [300%Z].
Proof.
  intros batch. eexists; eexists.
  split; [vm_compute; reflexivity|]. split; reflexivity.
Qed.

(** A task due for two days at dispatch, which the user completes after
    the first reminder and before the first due-check: the due-check after
    the first wait reads the completion, and the run stops after the
    Initial reminder.  A task completed after the run gets the three
    reminders. *)
Example completion_during_first_wait_stops_escalation :
  let start := 1700000000000%Z in
  let task := new_task "7 days" (start - 9 * day_ms) in
  let payload :=
    {| taskId := Utils.id task; taskName := Utils.name task;
       frequency := Utils.frequency task; reminderLevel := initial;
       dueDate := start; daysOverdue := Some 2%Z |} in
  getDaysOverdue task (world_at start) = Normal 2%Z
  /\ (let tr := snd (TaskReminderWorkflow.run
                       (agent_host task (start + 1000)) payload []) in
      delivered tr = [(initial, 2%Z)] /\ waits tr = [86400%Z])
  /\ (let tr := snd (TaskReminderWorkflow.run
                       (agent_host task (start + 30 * day_ms)) payload []) in
      delivered tr = [(initial, 2%Z); (followup, 3%Z); (escalation, 5%Z)]
      /\ waits tr = [86400%Z; 172800%Z]).
Proof. repeat split; vm_compute; reflexivity. Qed.

(** A task of the store that was deleted is answered as not due. *)
Example deleted_task_is_not_due :
  Server.check_task_endpoint (world_at 0) (str "task-1") = says_not_due.
Proof. reflexivity. Qed.

(** ** The batch the scanner dispatches *)

Lemma filter_due_all_due w :
  forall ts dueTasks,
    Server.filter_due w ts = Normal dueTasks ->
    Forall (fun t => isTaskDue t w = Normal true) dueTasks.
Proof.
  induction ts as [|t ts IH]; intros dueTasks H; simpl in H.
  - inversion H. constructor.
  - destruct (isTaskDue t w) as [due|] eqn:Hd; [|discriminate].
    destruct (Server.filter_due w ts) as [rest|]; [|discriminate].
    inversion H; subst. destruct due.
    + constructor; [exact Hd | apply IH; reflexivity].
    + apply IH; reflexivity.
Qed.

Lemma due_task_overdue_nonnegative t w days :
  isTaskDue t w = Normal true -> getDaysOverdue t w = Normal days -> (0 <= days)%Z.
Proof.
  unfold isTaskDue, getDaysOverdue.
  destruct (parseFrequencyToMilliseconds (Utils.frequency t)) as [ms|]; [|discriminate].
  intros Hd Hg. inversion Hd as [Hle]. inversion Hg.
  apply Z.leb_le in Hle. apply Z.div_pos; lia.
Qed.

(** The overdue count of every task of a dispatched batch is a natural
    number: the scanner keeps the due tasks only. *)
Lemma dispatched_overdue_nonnegative w batch :
  Server.dispatched_batch w = Normal (Some batch) ->
  Forall (fun d => (0 <= dt_daysOverdue d)%Z) batch.
Proof.
  unfold Server.dispatched_batch.
  destruct (Server.filter_due w (tasks w)) as [dueTasks|] eqn:Hf; [|discriminate].
  apply filter_due_all_due in Hf.
  destruct dueTasks as [|t dueTasks]; [discriminate|].
  destruct (Server.snapshot w (t :: dueTasks)) as [b|] eqn:Hs; [|discriminate].
  intros H; inversion H; subst b. clear H.
  revert batch Hs. induction Hf as [|t' ts Ht Hts IH]; intros batch Hs; simpl in Hs.
  - inversion Hs. constructor.
  - destruct (getDaysOverdue t' w) as [days|] eqn:Hg; [|discriminate].
    destruct (Server.snapshot w ts) as [rest|]; [|discriminate].
    inversion Hs; subst. constructor.
    + simpl. eapply due_task_overdue_nonnegative; eassumption.
    + apply IH. reflexivity.
Qed.

(** ** Further properties of the frequency model *)

Lemma parseInt_from_nonnegative ds :
  forall acc, (0 <= acc)%Z ->
    (0 <= fold_left (fun a c => 10 * a + digit_value c) ds acc)%Z.
Proof.
  induction ds as [|c ds IH]; intros acc Hacc; cbn [fold_left]; [exact Hacc|].
  apply IH. unfold digit_value. pose proof (N2Z.is_nonneg (c - 48)). lia.
Qed.

Lemma parseInt_nonnegative ds : (0 <= parseInt ds)%Z.
Proof. apply parseInt_from_nonnegative. lia. Qed.

(** A string that parses is well-formed, and parses to the product of its
    integer and the length of its unit. *)
Lemma parsed_form s ms :
  parseFrequencyToMilliseconds s = Normal ms ->
  exists n u, frequency_form s n u /\ (0 <= n)%Z /\ ms = (n * unit_ms u)%Z.
Proof.
  intros E.
  destruct (match_frequency (trim (replace_every s))) as [[ds w]|] eqn:Hm.
  - destruct (matched_form s ds w Hm) as (u & Hf).
    exists (parseInt ds), u. split; [exact Hf|]. split; [apply parseInt_nonnegative|].
    destruct (parse_sound s _ u Hf) as [E' _]. congruence.
  - unfold parseFrequencyToMilliseconds in E. cbv zeta in E. rewrite Hm in E.
    discriminate.
Qed.

Lemma parse_throws_invalid_format s :
  throws (parseFrequencyToMilliseconds s) ->
  parseFrequencyToDays s = Throw (invalid_format s)
  /\ parseFrequencyToMilliseconds s = Throw (invalid_format s).
Proof.
  intros Ht.
  destruct (match_frequency (trim (replace_every s))) as [[ds w]|] eqn:Hm.
  - destruct (matched_form s ds w Hm) as (u & Hf).
    destruct (parse_sound s _ u Hf) as [E _].
    rewrite E in Ht. destruct Ht.
  - unfold parseFrequencyToDays, parseFrequencyToMilliseconds. cbv zeta.
    rewrite Hm. split; reflexivity.
Qed.

(** X1: the two parsers accept the same expressions, and reject the other
    strings with the same error, the "Invalid frequency format" one that
    quotes the string: the "Unsupported frequency unit" branch of their
    [switch] is never reached. *)
Theorem parsers_agree :
  forall s,
    (throws (parseFrequencyToDays s) <-> throws (parseFrequencyToMilliseconds s))
    /\ (throws (parseFrequencyToMilliseconds s) ->
        parseFrequencyToDays s = Throw (invalid_format s)
        /\ parseFrequencyToMilliseconds s = Throw (invalid_format s)).
Proof.
  intros s. split.
  - rewrite parse_days_throws_iff, parse_ms_throws_iff. reflexivity.
  - apply parse_throws_invalid_format.
Qed.

(** X2: a parsed duration below 2^53, the range in which the integer and
    the products of the code are exact, is never negative, and it is a
    multiple of 1000. *)
Theorem parsed_duration_is_nonnegative :
  forall s ms,
    parseFrequencyToMilliseconds s = Normal ms ->
    (ms < 2 ^ 53)%Z ->
    (0 <= ms)%Z /\ (ms mod 1000 = 0)%Z.
Proof.
  intros s ms E _. destruct (parsed_form s ms E) as (n & u & _ & Hn & ->).
  split.
  - apply Z.mul_nonneg_nonneg; [exact Hn | destruct u; discriminate].
  - destruct u; unfold unit_ms, day_ms, hour_ms.
    + apply Z.mod_mul; discriminate.
    + replace (n * (60 * 1000))%Z with (n * 60 * 1000)%Z by lia.
      apply Z.mod_mul; discriminate.
    + replace (n * (60 * 60 * 1000))%Z with (n * 3600 * 1000)%Z by lia.
      apply Z.mod_mul; discriminate.
    + replace (n * (24 * (60 * 60 * 1000)))%Z with (n * 86400 * 1000)%Z by lia.
      apply Z.mod_mul; discriminate.
    + replace (n * (7 * (24 * (60 * 60 * 1000))))%Z with (n * 604800 * 1000)%Z by lia.
      apply Z.mod_mul; discriminate.
    + replace (n * (30 * (24 * (60 * 60 * 1000))))%Z with (n * 2592000 * 1000)%Z by lia.
      apply Z.mod_mul; discriminate.
Qed.

Lemma parsed_duration_is_nonnegative_witness :
  (0 <= 5400000)%Z /\ (5400000 mod 1000 = 0)%Z.
Proof.
  apply (parsed_duration_is_nonnegative (str "every 90 Minutes ") 5400000);
    reflexivity.
Defined.

Lemma drop_while_snoc p c :
  p c = false -> forall l, exists l', drop_while p (l ++ [c]) = l' ++ [c].
Proof.
  intros Hc. induction l as [|x l IH]; simpl.
  - rewrite Hc. exists []. reflexivity.
  - destruct (p x).
    + exact IH.
    + exists (x :: l). reflexivity.
Qed.

(** After leading whitespace, [trim] starts with the first code unit that
    is not whitespace. *)
Lemma trim_starts ws c t :
  all_whitespace ws -> is_whitespace c = false ->
  exists t', trim (ws ++ c :: t) = c :: t'.
Proof.
  intros Hws Hc. unfold trim.
  rewrite drop_while_app; [| exact Hws | exact Hc].
  cbn [rev].
  destruct (drop_while_snoc is_whitespace c Hc (rev t)) as (l' & E).
  rewrite E, rev_app_distr. exists (rev l'). reflexivity.
Qed.

(** X3: whitespace before a leading "every" makes the expression
    invalid, whatever follows: the "every" is removed only at the very
    start of the string, before the string is trimmed. *)
Theorem whitespace_before_every_is_rejected :
  forall ws e rest,
    ws <> [] -> all_whitespace ws -> ci_equal (str "every") e = true ->
    parseFrequencyToMilliseconds (ws ++ e ++ rest)
    = Throw (invalid_format (ws ++ e ++ rest))
    /\ parseFrequencyToDays (ws ++ e ++ rest)
       = Throw (invalid_format (ws ++ e ++ rest)).
Proof.
  intros ws e rest Hne Hws He.
  destruct (ci_equal_lower (str "every") eq_refl e He) as [_ Hl].
  pose proof (ci_equal_length _ _ He) as Hlen.
  destruct e as [|c e]; [discriminate|].
  simpl in Hl. apply andb_prop in Hl as [Hc _].
  pose proof (letter_not_whitespace c Hc) as Hcw.
  pose proof (letter_not_digit c Hc) as Hcd.
  assert (Hk : replace_every (ws ++ (c :: e) ++ rest) = ws ++ (c :: e) ++ rest).
  { destruct ws as [|x ws]; [congruence|]. simpl.
    apply replace_every_keep. left.
    simpl in Hws. apply andb_prop in Hws as [Hx _]. exact Hx. }
  destruct (trim_starts ws c (e ++ rest) Hws Hcw) as (t' & Et).
  assert (Hm : match_frequency (trim (replace_every (ws ++ (c :: e) ++ rest))) = None).
  { rewrite Hk. cbn [app] in *. rewrite Et.
    unfold match_frequency. cbn [span]. rewrite Hcd. reflexivity. }
  unfold parseFrequencyToMilliseconds, parseFrequencyToDays. cbv zeta.
  rewrite Hm. split; reflexivity.
Qed.

Lemma whitespace_before_every_is_rejected_witness :
  parseFrequencyToMilliseconds (str " Every 7 days")
  = Throw (invalid_format (str " Every 7 days"))
  /\ parseFrequencyToDays (str " Every 7 days")
     = Throw (invalid_format (str " Every 7 days")).
Proof.
  apply (whitespace_before_every_is_rejected (str " ") (str "Every") (str " 7 days"));
    [discriminate | reflexivity | reflexivity].
Defined.

(** ** Further properties of the due evaluator *)

(** X5: a task is due exactly when its overdue count is not negative. *)
Theorem due_iff_overdue_count_nonnegative :
  forall task w,
    isTaskDue task w = Normal true
    <-> exists days, getDaysOverdue task w = Normal days /\ (0 <= days)%Z.
Proof.
  intros task w. unfold isTaskDue, getDaysOverdue.
  destruct (parseFrequencyToMilliseconds (Utils.frequency task)) as [ms|e].
  - set (elapsed := (Utils.Date_now w - referenceDate task)%Z).
    change (1000 * 60 * 60 * 24)%Z with 86400000%Z.
    split.
    + intros H. inversion H as [Hle]. apply Z.leb_le in Hle.
      eexists; split; [reflexivity|]. apply Z.div_pos; lia.
    + intros (days & H & Hd). inversion H as [Hq]. f_equal. apply Z.leb_le.
      destruct (Z_lt_le_dec (elapsed - ms) 0) as [Hneg|Hpos]; [|lia].
      exfalso.
      assert ((elapsed - ms) / 86400000 < 0)%Z by (apply Z.div_lt_upper_bound; lia).
      lia.
  - split; [discriminate|]. intros (days & H & _). discriminate.
Qed.

(** X6: as long as a task is not completed, time only makes it more
    overdue: a task that is due stays due at every later instant, and its
    overdue count does not decrease. *)
Theorem due_task_stays_due :
  forall task w w' days,
    isTaskDue task w = Normal true ->
    getDaysOverdue task w = Normal days ->
    (Utils.Date_now w <= Utils.Date_now w')%Z ->
    isTaskDue task w' = Normal true
    /\ exists days', getDaysOverdue task w' = Normal days' /\ (days <= days')%Z.
Proof.
  intros task w w' days Hdue Hdays Hlater.
  unfold isTaskDue, getDaysOverdue in *.
  destruct (parseFrequencyToMilliseconds (Utils.frequency task)) as [ms|e];
    [|discriminate].
  injection Hdue as Hle. injection Hdays as Hq. apply Z.leb_le in Hle.
  split.
  - f_equal. apply Z.leb_le. lia.
  - eexists; split; [reflexivity|]. subst days.
    apply Z.div_le_mono; [reflexivity | lia].
Qed.

Lemma due_task_stays_due_witness :
  let task := new_task "1 week" 0 in
  isTaskDue task (world_at (30 * day_ms)) = Normal true
  /\ exists days', getDaysOverdue task (world_at (30 * day_ms)) = Normal days'
                   /\ (1 <= days')%Z.
Proof.
  intros task.
  apply (due_task_stays_due task (world_at (8 * day_ms)) (world_at (30 * day_ms)) 1);
    [reflexivity | reflexivity | vm_compute; discriminate].
Defined.

(** ** Case of the letters of a frequency expression *)

Lemma lower_is_letter c : is_ascii_lower c = true -> is_ascii_letter c = true.
Proof. unfold is_ascii_letter. intros ->. reflexivity. Qed.

Lemma canonical_lower_is_letter c :
  is_ascii_lower c = true -> is_ascii_letter (c - 32)%N = true.
Proof.
  unfold is_ascii_letter, is_ascii_lower, is_ascii_upper. intros H. unbool.
  apply orb_true_iff. right.
  apply andb_true_intro; split; apply N.leb_le; lia.
Qed.

Lemma canonicalize_whitespace c : is_whitespace (canonicalize c) = is_whitespace c.
Proof.
  unfold canonicalize. destruct (is_ascii_lower c) eqn:H; [|reflexivity].
  rewrite (letter_not_whitespace _ (canonical_lower_is_letter c H)).
  rewrite (letter_not_whitespace _ (lower_is_letter c H)). reflexivity.
Qed.

Lemma canonicalize_digit c : is_digit (canonicalize c) = is_digit c.
Proof.
  unfold canonicalize. destruct (is_ascii_lower c) eqn:H; [|reflexivity].
  rewrite (letter_not_digit _ (canonical_lower_is_letter c H)).
  rewrite (letter_not_digit _ (lower_is_letter c H)). reflexivity.
Qed.

Lemma canonicalize_idempotent c : canonicalize (canonicalize c) = canonicalize c.
Proof.
  unfold canonicalize. destruct (is_ascii_lower c) eqn:H; [|rewrite H; reflexivity].
  replace (is_ascii_lower (c - 32)%N) with false; [reflexivity|].
  symmetry. unfold is_ascii_lower in *. unbool.
  apply andb_false_iff. left. apply N.leb_gt. lia.
Qed.

Lemma to_lower_canonicalize c : to_lower_unit (canonicalize c) = to_lower_unit c.
Proof.
  unfold canonicalize, to_lower_unit, is_ascii_upper.
  destruct (is_ascii_lower c) eqn:H; [|reflexivity].
  unfold is_ascii_lower in H. unbool.
  replace ((65 <=? c - 32) && (c - 32 <=? 90))%N with true
    by (symmetry; apply andb_true_intro; split; apply N.leb_le; lia).
  replace ((65 <=? c) && (c <=? 90))%N with false
    by (symmetry; apply andb_false_iff; right; apply N.leb_gt; lia).
  lia.
Qed.

Lemma span_map p s :
  (forall c, p (canonicalize c) = p c) ->
  span p (ascii_upper s)
  = (ascii_upper (fst (span p s)), ascii_upper (snd (span p s))).
Proof.
  intros Hp. unfold ascii_upper. induction s as [|c s IH]; simpl; [reflexivity|].
  rewrite Hp. destruct (p c); [|reflexivity].
  rewrite IH. destruct (span p s); reflexivity.
Qed.

Lemma drop_while_map p s :
  (forall c, p (canonicalize c) = p c) ->
  drop_while p (ascii_upper s) = ascii_upper (drop_while p s).
Proof.
  intros Hp. rewrite !drop_while_span, span_map by exact Hp. reflexivity.
Qed.

Lemma ci_equal_map word : forall w, ci_equal word (ascii_upper w) = ci_equal word w.
Proof.
  unfold ascii_upper.
  induction word as [|a word IH]; intros [|c w]; simpl; try reflexivity.
  rewrite canonicalize_idempotent, IH. reflexivity.
Qed.

Lemma ci_strip_prefix_map word :
  forall s, ci_strip_prefix word (ascii_upper s)
            = option_map ascii_upper (ci_strip_prefix word s).
Proof.
  unfold ascii_upper.
  induction word as [|a word IH]; intros [|c s]; simpl; try reflexivity.
  rewrite canonicalize_idempotent.
  destruct (canonicalize a =? canonicalize c)%N; [|reflexivity].
  apply IH.
Qed.

Lemma replace_every_map s : replace_every (ascii_upper s) = ascii_upper (replace_every s).
Proof.
  unfold replace_every. rewrite ci_strip_prefix_map.
  destruct (ci_strip_prefix (str "every") s) as [rest|]; simpl; [|reflexivity].
  rewrite (span_map is_whitespace rest canonicalize_whitespace).
  destruct (span is_whitespace rest) as [[|x a] b]; reflexivity.
Qed.

Lemma trim_map s : trim (ascii_upper s) = ascii_upper (trim s).
Proof.
  unfold trim.
  rewrite (drop_while_map is_whitespace s canonicalize_whitespace).
  unfold ascii_upper at 1. rewrite <- map_rev. fold (ascii_upper (rev (drop_while is_whitespace s))).
  rewrite (drop_while_map is_whitespace _ canonicalize_whitespace).
  unfold ascii_upper. rewrite map_rev. reflexivity.
Qed.

Lemma match_frequency_map s :
  match_frequency (ascii_upper s)
  = option_map (fun dw => (ascii_upper (fst dw), ascii_upper (snd dw)))
      (match_frequency s).
Proof.
  unfold match_frequency.
  rewrite (span_map is_digit s canonicalize_digit).
  destruct (span is_digit s) as [[|d ds] rest]; cbn [fst snd]; [reflexivity|].
  change (ascii_upper (d :: ds)) with (canonicalize d :: ascii_upper ds).
  cbv iota.
  rewrite (drop_while_map is_whitespace rest canonicalize_whitespace).
  assert (E : existsb (fun w => ci_equal w
                                  (ascii_upper (drop_while is_whitespace rest)))
                unit_words
              = existsb (fun w => ci_equal w (drop_while is_whitespace rest))
                  unit_words).
  { generalize unit_words. intros l. induction l as [|w l IH]; simpl; [reflexivity|].
    rewrite ci_equal_map, IH. reflexivity. }
  rewrite E.
  destruct (existsb (fun w => ci_equal w (drop_while is_whitespace rest)) unit_words);
    reflexivity.
Qed.

Lemma digits_upper ds : all_digits ds -> ascii_upper ds = ds.
Proof.
  unfold all_digits. induction ds as [|c ds IH]; simpl; intros H; [reflexivity|].
  apply andb_prop in H as [Hc H]. rewrite IH by exact H. f_equal.
  unfold canonicalize.
  destruct (is_ascii_lower c) eqn:Hl; [|reflexivity].
  apply lower_is_letter, letter_not_digit in Hl. congruence.
Qed.

Lemma toLowerCase_upper w : toLowerCase (ascii_upper w) = toLowerCase w.
Proof.
  unfold toLowerCase, ascii_upper. rewrite map_map.
  apply map_ext. exact to_lower_canonicalize.
Qed.

Lemma same_outcome_refl {A} (a : Completion A) : same_outcome a a.
Proof. destruct a; simpl; auto. Qed.

Lemma same_outcome_sym {A} (a b : Completion A) : same_outcome a b -> same_outcome b a.
Proof. destruct a, b; simpl; auto. Qed.

Lemma same_outcome_trans {A} (a b c : Completion A) :
  same_outcome a b -> same_outcome b c -> same_outcome a c.
Proof. destruct a, b, c; simpl; try tauto; congruence. Qed.

Lemma parse_upper s :
  same_outcome (parseFrequencyToMilliseconds s)
    (parseFrequencyToMilliseconds (ascii_upper s))
  /\ same_outcome (parseFrequencyToDays s) (parseFrequencyToDays (ascii_upper s)).
Proof.
  unfold parseFrequencyToMilliseconds, parseFrequencyToDays. cbv zeta.
  rewrite replace_every_map, trim_map, match_frequency_map.
  destruct (match_frequency (trim (replace_every s))) as [[ds w]|] eqn:Hm;
    cbn [option_map fst snd]; [|split; exact I].
  destruct (match_frequency_split _ _ _ Hm) as (_ & _ & _ & _ & Hd & _).
  rewrite (digits_upper ds Hd), toLowerCase_upper.
  split; apply same_outcome_refl.
Qed.

(** X4: the case of the ASCII letters of an expression does not matter:
    two expressions that differ in it only both parse to the same
    duration or are both rejected, by both parsers. *)
Theorem parse_ignores_case :
  forall s s',
    ascii_upper s = ascii_upper s' ->
    same_outcome (parseFrequencyToMilliseconds s) (parseFrequencyToMilliseconds s')
    /\ same_outcome (parseFrequencyToDays s) (parseFrequencyToDays s').
Proof.
  intros s s' E.
  destruct (parse_upper s) as [M D]. destruct (parse_upper s') as [M' D'].
  rewrite E in M, D. split.
  - exact (same_outcome_trans _ _ _ M (same_outcome_sym _ _ M')).
  - exact (same_outcome_trans _ _ _ D (same_outcome_sym _ _ D')).
Qed.

Lemma parse_ignores_case_witness :
  same_outcome (parseFrequencyToMilliseconds (str "EVERY 2 Weeks"))
    (parseFrequencyToMilliseconds (str "every 2 weeks"))
  /\ same_outcome (parseFrequencyToDays (str "EVERY 2 Weeks"))
       (parseFrequencyToDays (str "every 2 weeks")).
Proof.
  apply (parse_ignores_case (str "EVERY 2 Weeks") (str "every 2 weeks")).
  reflexivity.
Defined.

(** ** The tools and the task list *)

Lemma isTaskDue_throws_iff t w :
  throws (isTaskDue t w) <-> throws (parseFrequencyToMilliseconds (Utils.frequency t)).
Proof.
  unfold isTaskDue.
  destruct (parseFrequencyToMilliseconds (Utils.frequency t)); simpl; tauto.
Qed.

Lemma getDaysOverdue_throws_iff t w :
  throws (getDaysOverdue t w)
  <-> throws (parseFrequencyToMilliseconds (Utils.frequency t)).
Proof.
  unfold getDaysOverdue.
  destruct (parseFrequencyToMilliseconds (Utils.frequency t)); simpl; tauto.
Qed.

Lemma all_parse_app a b : all_parse a -> all_parse b -> all_parse (a ++ b).
Proof. unfold all_parse. intros Ha Hb. apply Forall_app. split; assumption. Qed.

Lemma all_parse_filter p ts : all_parse ts -> all_parse (filter p ts).
Proof.
  unfold all_parse. rewrite !Forall_forall. intros H t Ht.
  apply filter_In in Ht as [Ht _]. apply H; exact Ht.
Qed.

Lemma all_parse_complete_at now :
  forall ts i, all_parse ts -> all_parse (Tools.complete_at i now ts).
Proof.
  unfold all_parse. induction ts as [|t ts IH]; intros i H; [destruct i; constructor|].
  inversion H as [|? ? Ht Hts]; subst. destruct i; simpl.
  - constructor; [exact Ht | exact Hts].
  - constructor; [exact Ht | apply IH; exact Hts].
Qed.

(** X7: the tools keep the list valid: if the frequency of every stored
    task parses, it still does after [addTask], [markTaskComplete],
    [deleteTask] and [clearAllTasks], whatever their arguments; [addTask]
    stores nothing when the frequency it is given does not parse. *)
Theorem tools_keep_frequencies_valid :
  forall state,
    all_parse (Tools.stored_tasks state) ->
    (forall name frequency newId now,
        all_parse (tasks_after (Tools.addTask name frequency newId now (Some state)))
        /\ (throws (parseFrequencyToMilliseconds frequency) ->
            Tools.addTask name frequency newId now (Some state)
            = (Throw (invalid_format frequency), Some state)))
    /\ (forall taskId now,
           all_parse (tasks_after (Tools.markTaskComplete taskId now (Some state))))
    /\ (forall taskId,
           all_parse (tasks_after (Tools.deleteTask taskId (Some state))))
    /\ all_parse (tasks_after (Tools.clearAllTasks (Some state))).
Proof.
  intros state Hall.
  split; [intros nm freq newId now; split
         | split; [intros taskId now | split; [intros taskId|]]].
  - unfold Tools.addTask.
    destruct (parseFrequencyToDays freq) as [days|e] eqn:E; unfold tasks_after;
      cbn [snd]; [|exact Hall].
    cbn [Tools.stored_tasks]. apply all_parse_app; [exact Hall|].
    constructor; [|constructor]. cbn [Utils.frequency].
    intros Ht. apply parse_ms_throws_iff in Ht. apply parse_days_throws_iff in Ht.
    rewrite E in Ht. exact Ht.
  - intros Ht. unfold Tools.addTask.
    apply parse_ms_throws_iff in Ht.
    unfold parseFrequencyToDays. cbv zeta.
    destruct (match_frequency (trim (replace_every freq))) as [[ds w]|] eqn:Hm;
      [|reflexivity].
    exfalso. destruct (matched_form freq ds w Hm) as (u & Hf).
    apply Ht. exists (parseInt ds), u. exact Hf.
  - unfold Tools.markTaskComplete. cbv zeta.
    destruct (Tools.findIndex taskId (Tools.stored_tasks state)); unfold tasks_after;
      cbn [snd Tools.stored_tasks]; [|exact Hall].
    apply all_parse_complete_at; exact Hall.
  - unfold Tools.deleteTask. cbv zeta.
    destruct (Tools.findIndex taskId (Tools.stored_tasks state)); unfold tasks_after;
      cbn [snd Tools.stored_tasks]; [|exact Hall].
    apply all_parse_filter; exact Hall.
  - constructor.
Qed.

Lemma tools_keep_frequencies_valid_witness :
  all_parse (tasks_after (Tools.addTask (str "laundry") (str "2 weeks") (str "id-2") 0
                            (Some (Some [new_task "7 days" 0])))).
Proof.
  assert (H : all_parse (Tools.stored_tasks (Some [new_task "7 days" 0]))).
  { constructor; [|constructor]. vm_compute. exact (fun f => f). }
  exact (proj1 (proj1 (tools_keep_frequencies_valid (Some [new_task "7 days" 0]) H)
                  (str "laundry") (str "2 weeks") (str "id-2") 0%Z)).
Defined.

Lemma isTaskDue_normal t w :
  ~ throws (parseFrequencyToMilliseconds (Utils.frequency t)) ->
  isTaskDue t w = Normal (due_now w t).
Proof.
  intros H. unfold due_now.
  destruct (isTaskDue t w) as [[|]|e] eqn:E; try reflexivity.
  exfalso. apply H. apply (isTaskDue_throws_iff t w). rewrite E. exact I.
Qed.

Lemma filter_due_valid w :
  forall ts, all_parse ts -> Server.filter_due w ts = Normal (filter (due_now w) ts).
Proof.
  induction ts as [|t ts IH]; intros H; [reflexivity|].
  inversion H as [|? ? Ht Hts]; subst. simpl.
  rewrite (isTaskDue_normal t w Ht), (IH Hts). reflexivity.
Qed.

Lemma filter_due_invalid w t :
  forall ts,
    In t ts -> throws (parseFrequencyToMilliseconds (Utils.frequency t)) ->
    throws (Server.filter_due w ts).
Proof.
  induction ts as [|x ts IH]; intros Hin Ht; [contradiction|]. simpl.
  destruct (isTaskDue x w) as [due|e] eqn:E; [|exact I].
  destruct Hin as [->|Hin].
  - apply (isTaskDue_throws_iff t w) in Ht. rewrite E in Ht. contradiction.
  - specialize (IH Hin Ht). destruct (Server.filter_due w ts); [contradiction | exact I].
Qed.

Lemma with_due_invalid w t :
  forall ts,
    In t ts -> throws (parseFrequencyToMilliseconds (Utils.frequency t)) ->
    throws (Tools.with_due w ts).
Proof.
  induction ts as [|x ts IH]; intros Hin Ht; [contradiction|]. simpl.
  destruct (isTaskDue x w) as [due|e] eqn:E; [|exact I].
  destruct Hin as [->|Hin].
  - apply (isTaskDue_throws_iff t w) in Ht. rewrite E in Ht. contradiction.
  - specialize (IH Hin Ht). destruct (Tools.with_due w ts); [contradiction | exact I].
Qed.

(** X8: one stored task whose frequency does not parse disables the
    listing tools and the whole scan: [listTasks] and [checkDueTasks]
    return a failure with no task at all, and [checkAndRemindTasks]
    reminds of no task, also of none of the valid ones that are due. *)
Theorem unparsable_task_disables_listing_and_scan :
  forall state now t,
    In t (Tools.stored_tasks state) ->
    throws (parseFrequencyToMilliseconds (Utils.frequency t)) ->
    (exists error, Tools.listTasks now (Some state) = Tools.ListFailed error)
    /\ (exists error, Tools.checkDueTasks now (Some state) = Tools.DueFailed error)
    /\ (forall binding,
           exists error,
             Scanner.checkAndRemindTasks (Tools.world_of state now) binding
             = Scanner.TickError error).
Proof.
  intros state now t Hin Ht. split; [|split].
  - unfold Tools.listTasks.
    pose proof (with_due_invalid (Tools.world_of state now) t _ Hin Ht) as H.
    destruct (Tools.with_due _ _); [contradiction | eexists; reflexivity].
  - unfold Tools.checkDueTasks. cbv zeta.
    pose proof (filter_due_invalid (Tools.world_of state now) t _ Hin Ht) as H.
    destruct (Server.filter_due _ _); [contradiction | eexists; reflexivity].
  - intros binding. unfold Scanner.checkAndRemindTasks.
    pose proof (filter_due_invalid (Tools.world_of state now) t _ Hin Ht) as H.
    cbn [tasks Tools.world_of].
    destruct (Server.filter_due _ _); [contradiction | eexists; reflexivity].
Qed.

Lemma unparsable_task_disables_listing_and_scan_witness :
  let state := Some [new_task "7 days" 0; new_task "weekly" 0] in
  (exists error, Tools.listTasks (30 * day_ms) (Some state) = Tools.ListFailed error)
  /\ (exists error, Tools.checkDueTasks (30 * day_ms) (Some state) = Tools.DueFailed error)
  /\ (forall binding,
         exists error,
           Scanner.checkAndRemindTasks (Tools.world_of state (30 * day_ms)) binding
           = Scanner.TickError error).
Proof.
  intros state.
  apply (unparsable_task_disables_listing_and_scan state (30 * day_ms)
           (new_task "weekly" 0)).
  - right; left; reflexivity.
  - exact I.
Defined.

Lemma overdue_count_of_due t w :
  isTaskDue t w = Normal true ->
  exists days, getDaysOverdue t w = Normal days /\ (0 <= days)%Z.
Proof.
  intros Hdue.
  destruct (getDaysOverdue t w) as [days|e] eqn:E.
  - exists days. split; [reflexivity|].
    exact (due_task_overdue_nonnegative t w days Hdue E).
  - exfalso.
    assert (Ht : throws (getDaysOverdue t w)) by (rewrite E; exact I).
    apply getDaysOverdue_throws_iff in Ht. apply (isTaskDue_throws_iff t w) in Ht.
    rewrite Hdue in Ht. exact Ht.
Qed.

(** The overdue counts of tasks that are due. *)
Lemma overdue_of_due w :
  forall ts,
    Forall (fun t => isTaskDue t w = Normal true) ts ->
    exists entries,
      Tools.with_overdue w ts = Normal entries
      /\ map Tools.entry entries = ts
      /\ Forall (fun e => (0 <= Tools.entry_daysOverdue e)%Z) entries
      /\ Server.snapshot w ts = Normal (map to_due entries)
      /\ Scanner.fallback_texts w ts
         = Normal (map (fun e => Scanner.fallback_text (Tools.entry e)
                                   (Tools.entry_daysOverdue e)) entries).
Proof.
  induction ts as [|t ts IH]; intros H.
  - exists []. repeat split; constructor.
  - inversion H as [|? ? Ht Hts]; subst.
    destruct (IH Hts) as (entries & E1 & E2 & E3 & E4 & E5).
    destruct (overdue_count_of_due t w Ht) as (days & Ed & Hd).
    exists ({| Tools.entry := t; Tools.entry_daysOverdue := days |} :: entries).
    simpl. rewrite Ed, E1, E4, E5, E2.
    repeat split; try reflexivity. constructor; assumption.
Qed.

Lemma filter_due_now_all_due w ts :
  all_parse ts ->
  Forall (fun t => isTaskDue t w = Normal true) (filter (due_now w) ts).
Proof.
  intros Hall. apply Forall_forall. intros t Ht.
  apply filter_In in Ht as [Hin Hd].
  unfold all_parse in Hall. rewrite Forall_forall in Hall.
  rewrite (isTaskDue_normal t w (Hall t Hin)), Hd. reflexivity.
Qed.

(** X9: when every stored frequency parses, [checkDueTasks] lists, in the
    order of the list, exactly the tasks that are due, each with an
    overdue count that is not negative, and these are the tasks and the
    counts of the batch the scan dispatches at the same instant. *)
Theorem checkDueTasks_lists_what_the_scan_dispatches :
  forall state now,
    all_parse (Tools.stored_tasks state) ->
    let w := Tools.world_of state now in
    exists entries,
      Tools.checkDueTasks now (Some state)
      = Tools.DueListed entries (List.length entries)
      /\ map Tools.entry entries = filter (due_now w) (Tools.stored_tasks state)
      /\ Forall (fun e => (0 <= Tools.entry_daysOverdue e)%Z) entries
      /\ Server.dispatched_batch w
         = Normal match entries with
                  | [] => None
                  | _ :: _ => Some (map to_due entries)
                  end.
Proof.
  intros state now Hall w.
  pose proof (filter_due_valid w _ Hall) as Hf.
  destruct (overdue_of_due w _ (filter_due_now_all_due w _ Hall))
    as (entries & E1 & E2 & E3 & E4 & _).
  exists entries. split; [|split; [exact E2 | split; [exact E3|]]].
  - unfold Tools.checkDueTasks. cbv zeta. fold w. rewrite Hf, E1.
    rewrite <- E2, length_map. reflexivity.
  - unfold Server.dispatched_batch. change (tasks w) with (Tools.stored_tasks state).
    rewrite Hf. rewrite <- E2 in *.
    destruct entries as [|e entries]; [reflexivity|].
    cbn [map] in *. rewrite E4. reflexivity.
Qed.

Lemma checkDueTasks_lists_what_the_scan_dispatches_witness :
  let state := Some [new_task "7 days" 0; new_task "1 month" 0] in
  let w := Tools.world_of state (9 * day_ms) in
  exists entries,
    Tools.checkDueTasks (9 * day_ms) (Some state)
    = Tools.DueListed entries (List.length entries)
    /\ map Tools.entry entries = filter (due_now w) (Tools.stored_tasks state)
    /\ Forall (fun e => (0 <= Tools.entry_daysOverdue e)%Z) entries
    /\ Server.dispatched_batch w
       = Normal match entries with
                | [] => None
                | _ :: _ => Some (map to_due entries)
                end.
Proof.
  intros state w.
  apply (checkDueTasks_lists_what_the_scan_dispatches state (9 * day_ms)).
  constructor; [|constructor; [|constructor]]; vm_compute; exact (fun f => f).
Defined.

(** The entries of tasks that are due: each with the count
    [getDaysOverdue] returns for it, which is not negative. *)
Lemma due_entries w :
  forall ts,
    Forall (fun t => isTaskDue t w = Normal true) ts ->
    exists entries,
      map Tools.entry entries = ts
      /\ Forall (fun e => getDaysOverdue (Tools.entry e) w
                          = Normal (Tools.entry_daysOverdue e)
                          /\ (0 <= Tools.entry_daysOverdue e)%Z) entries
      /\ Server.snapshot w ts = Normal (map to_due entries)
      /\ Scanner.fallback_texts w ts
         = Normal (map (fun e => Scanner.fallback_text (Tools.entry e)
                                   (Tools.entry_daysOverdue e)) entries).
Proof.
  induction ts as [|t ts IH]; intros H.
  - exists []. repeat split; constructor.
  - inversion H as [|? ? Ht Hts]; subst.
    destruct (IH Hts) as (entries & E2 & E3 & E4 & E5).
    destruct (overdue_count_of_due t w Ht) as (days & Ed & Hd).
    exists ({| Tools.entry := t; Tools.entry_daysOverdue := days |} :: entries).
    simpl. rewrite Ed, E4, E5, E2.
    repeat split; try reflexivity. constructor; [split; assumption | assumption].
Qed.

(** X10: with every stored frequency parsing, what one scan does is fixed
    by the tasks that are due at its instant, each taken with the count
    [getDaysOverdue] returns for it, which is not negative.  With no due
    task the scan does nothing, and only then.  With due tasks and the
    workflow binding, it asks for one batch, whose id is "batch-reminder-"
    and the instant and whose tasks are exactly the due tasks, in order,
    with their counts: the scan ends with that instance when the creation
    returns, and with the error of the creation when it throws.  With due
    tasks and without the binding, it posts the reminders of the due
    tasks, in order. *)
Theorem scan_outcomes :
  forall w binding,
    all_parse (tasks w) ->
    exists entries,
      map Tools.entry entries = filter (due_now w) (tasks w)
      /\ Forall (fun e => getDaysOverdue (Tools.entry e) w
                          = Normal (Tools.entry_daysOverdue e)
                          /\ (0 <= Tools.entry_daysOverdue e)%Z) entries
      /\ Scanner.checkAndRemindTasks w binding
         = match entries, binding with
           | [], _ => Scanner.TickIdle
           | _ :: _, Some create =>
               let options :=
                 {| Scanner.batch_id := str "batch-reminder-"
                                        ++ Number_toString (Utils.Date_now w);
                    Scanner.batch_dueTasks := map to_due entries |} in
               match create options with
               | Normal instance => Scanner.TickBatch options instance
               | Throw error => Scanner.TickError error
               end
           | _ :: _, None =>
               Scanner.TickMessages
                 (map (fun e => Scanner.fallback_text (Tools.entry e)
                                  (Tools.entry_daysOverdue e)) entries)
           end.
Proof.
  intros w binding Hall.
  destruct (due_entries w _ (filter_due_now_all_due w _ Hall))
    as (entries & E2 & E3 & E4 & E5).
  exists entries. split; [exact E2|]. split; [exact E3|].
  unfold Scanner.checkAndRemindTasks.
  rewrite (filter_due_valid w _ Hall).
  destruct (filter (due_now w) (tasks w)) as [|t rest] eqn:Hd.
  - destruct entries; [reflexivity | discriminate E2].
  - destruct entries as [|e entries]; [discriminate E2|].
    destruct binding as [create|].
    + rewrite E4. reflexivity.
    + rewrite E5. reflexivity.
Qed.

Lemma scan_outcomes_witness :
  let w := Tools.world_of (Some [new_task "7 days" 0; new_task "1 month" 0])
             (9 * day_ms) in
  let binding := Some (fun options => Normal (Scanner.batch_id options)) in
  exists entries,
    map Tools.entry entries = filter (due_now w) (tasks w)
    /\ Forall (fun e => getDaysOverdue (Tools.entry e) w
                        = Normal (Tools.entry_daysOverdue e)
                        /\ (0 <= Tools.entry_daysOverdue e)%Z) entries
    /\ Scanner.checkAndRemindTasks w binding
       = match entries, binding with
         | [], _ => Scanner.TickIdle
         | _ :: _, Some create =>
             let options :=
               {| Scanner.batch_id := str "batch-reminder-"
                                      ++ Number_toString (Utils.Date_now w);
                  Scanner.batch_dueTasks := map to_due entries |} in
             match create options with
             | Normal instance => Scanner.TickBatch options instance
             | Throw error => Scanner.TickError error
             end
         | _ :: _, None =>
             Scanner.TickMessages
               (map (fun e => Scanner.fallback_text (Tools.entry e)
                                (Tools.entry_daysOverdue e)) entries)
         end.
Proof.
  intros w binding.
  apply (scan_outcomes w binding).
  constructor; [|constructor; [|constructor]]; vm_compute; exact (fun f => f).
Defined.

(** ** Completing and deleting a task *)

Lemma findIndex_none taskId :
  forall ts, Tools.findIndex taskId ts = None <-> task_with taskId ts = None.
Proof.
  unfold task_with. induction ts as [|t ts IH]; simpl; [tauto|].
  destruct (jsstring_eqb (Utils.id t) taskId).
  - split; discriminate.
  - rewrite <- IH. destruct (Tools.findIndex taskId ts); split; congruence.
Qed.

(** [findIndex] and [find] meet the same task, and completing it at its
    index completes the task [find] meets. *)
Lemma findIndex_find taskId now :
  forall ts t,
    task_with taskId ts = Some t ->
    exists i,
      Tools.findIndex taskId ts = Some i
      /\ nth_error ts i = Some t
      /\ task_with taskId (Tools.complete_at i now ts) = Some (Tools.completed t now)
      /\ nth_error (Tools.complete_at i now ts) i = Some (Tools.completed t now).
Proof.
  unfold task_with. induction ts as [|x ts IH]; intros t H; simpl in H; [discriminate|].
  destruct (jsstring_eqb (Utils.id x) taskId) eqn:E.
  - inversion H; subst x. exists O.
    cbn [Tools.findIndex Tools.complete_at nth_error find Tools.completed Utils.id].
    rewrite E. auto.
  - destruct (IH t H) as (i & Hi & Hn & Hf & Hn').
    exists (S i).
    cbn [Tools.findIndex Tools.complete_at nth_error find].
    rewrite E, Hi. auto.
Qed.

(** X11: completing a stored task stops its escalation: from the instant
    of [markTaskComplete] and for as long as the frequency of the task,
    the due-check of the workflow is answered "not due", and
    [checkTaskStillDue] returns false. *)
Theorem completion_answers_not_due :
  forall state taskId now t frequencyMs later,
    task_with taskId (Tools.stored_tasks state) = Some t ->
    parseFrequencyToMilliseconds (Utils.frequency t) = Normal frequencyMs ->
    (now <= later < now + frequencyMs)%Z ->
    let after := tasks_after (Tools.markTaskComplete taskId now (Some state)) in
    let answer := Server.check_task_endpoint (Tools.world_of (Some after) later) taskId in
    answer = says_not_due /\ still_due answer = false.
Proof.
  intros state taskId now t ms later Hfind Hparse Hlater after answer.
  destruct (findIndex_find taskId now _ t Hfind) as (i & Hi & _ & Hf & _).
  assert (Ea : after = Tools.complete_at i now (Tools.stored_tasks state)).
  { unfold after, Tools.markTaskComplete. cbv zeta. rewrite Hi. reflexivity. }
  assert (E : answer = says_not_due).
  { unfold answer, Server.check_task_endpoint.
    cbn [tasks Tools.world_of Tools.stored_tasks].
    rewrite Ea. unfold task_with in Hf. rewrite Hf.
    unfold isTaskDue. cbn [Utils.frequency Tools.completed]. rewrite Hparse.
    cbn [referenceDate lastCompleted Tools.completed Utils.Date_now Tools.world_of].
    replace (ms <=? later - now)%Z with false; [reflexivity|].
    symmetry. apply Z.leb_gt. lia. }
  split; [exact E | rewrite E; reflexivity].
Qed.

Lemma completion_answers_not_due_witness :
  let state := Some [new_task "7 days" 0] in
  let after := tasks_after (Tools.markTaskComplete (str "task-1") (9 * day_ms)
                              (Some state)) in
  let answer := Server.check_task_endpoint
                  (Tools.world_of (Some after) (10 * day_ms)) (str "task-1") in
  answer = says_not_due /\ still_due answer = false.
Proof.
  intros state.
  apply (completion_answers_not_due state (str "task-1") (9 * day_ms)
           (new_task "7 days" 0) (7 * day_ms) (10 * day_ms));
    [reflexivity | reflexivity | vm_compute; split; [discriminate | reflexivity]].
Defined.

Lemma complete_at_keeps now :
  forall ts i,
    map Utils.id (Tools.complete_at i now ts) = map Utils.id ts
    /\ map Utils.name (Tools.complete_at i now ts) = map Utils.name ts
    /\ map Utils.frequency (Tools.complete_at i now ts) = map Utils.frequency ts
    /\ map createdAt (Tools.complete_at i now ts) = map createdAt ts
    /\ (forall j, j <> i ->
          nth_error (Tools.complete_at i now ts) j = nth_error ts j).
Proof.
  induction ts as [|t ts IH]; intros i.
  - destruct i; repeat split; reflexivity.
  - destruct i; simpl.
    + repeat split; try reflexivity. intros [|j] Hj; [congruence | reflexivity].
    + destruct (IH i) as (H1 & H2 & H3 & H4 & H5).
      rewrite H1, H2, H3, H4. repeat split; try reflexivity.
      intros [|j] Hj; [reflexivity|]. simpl. apply H5. congruence.
Qed.

(** X12: [markTaskComplete] changes nothing but the completion date of
    the first task with the id: the ids, names, frequencies and creation
    dates of the list, in order, are as before, every other task is as
    before, and that task is completed at the instant of the call.  For
    an id that is not stored it reports that and leaves the state as it
    is. *)
Theorem markTaskComplete_changes_one_completion_date :
  forall state taskId now,
    let result := Tools.markTaskComplete taskId now (Some state) in
    let before := Tools.stored_tasks state in
    let after := tasks_after result in
    map Utils.id after = map Utils.id before
    /\ map Utils.name after = map Utils.name before
    /\ map Utils.frequency after = map Utils.frequency before
    /\ map createdAt after = map createdAt before
    /\ match Tools.findIndex taskId before with
       | None =>
           result = (Normal (Tools.CompleteNotFound (Tools.not_found_message taskId)),
                     Some state)
       | Some i =>
           (forall j, j <> i -> nth_error after j = nth_error before j)
           /\ exists t, nth_error before i = Some t
                        /\ Utils.id t = taskId
                        /\ nth_error after i = Some (Tools.completed t now)
       end.
Proof.
  intros state taskId now result before after.
  unfold after, result, Tools.markTaskComplete, tasks_after. cbv zeta. fold before.
  destruct (Tools.findIndex taskId before) as [i|] eqn:Hi; cbn [snd].
  - cbn [Tools.stored_tasks].
    destruct (complete_at_keeps now before i) as (H1 & H2 & H3 & H4 & H5).
    repeat split; try assumption.
    destruct (task_with taskId before) as [t|] eqn:Hf.
    + destruct (findIndex_find taskId now before t Hf) as (i' & Hi' & Hn & _ & Hn').
      rewrite Hi in Hi'. inversion Hi'; subst i'.
      exists t. repeat split; try assumption.
      unfold task_with in Hf. apply find_some in Hf as [_ Hf].
      apply jsstring_eqb_eq. exact Hf.
    + apply findIndex_none in Hf. congruence.
  - fold before. repeat split; reflexivity.
Qed.

(** X13: after [deleteTask] no stored task has the id, the other tasks
    are all there, and the due-check of the workflow for the id is
    answered "not due", so that an escalation in flight stops at its next
    check. *)
Theorem deleteTask_removes_the_id :
  forall state taskId now,
    let after := tasks_after (Tools.deleteTask taskId (Some state)) in
    (forall t, In t after
               <-> In t (Tools.stored_tasks state) /\ Utils.id t <> taskId)
    /\ Server.check_task_endpoint (Tools.world_of (Some after) now) taskId
       = says_not_due.
Proof.
  intros state taskId now after.
  assert (Hin : forall t, In t after
                  <-> In t (Tools.stored_tasks state) /\ Utils.id t <> taskId).
  { intros t. unfold after, Tools.deleteTask, tasks_after. cbv zeta.
    destruct (Tools.findIndex taskId (Tools.stored_tasks state)) as [i|] eqn:Hi;
      cbn [snd Tools.stored_tasks].
    - rewrite filter_In. split; intros [H1 H2]; (split; [exact H1|]).
      + intros E. apply jsstring_eqb_eq in E. rewrite E in H2. discriminate.
      + destruct (jsstring_eqb (Utils.id t) taskId) eqn:E; [|reflexivity].
        apply jsstring_eqb_eq in E. contradiction.
    - apply findIndex_none in Hi. split; [|tauto].
      intros H. split; [exact H|]. intros E.
      unfold task_with in Hi.
      apply (find_none _ _ Hi) in H. apply jsstring_eqb_eq in E. congruence. }
  split; [exact Hin|].
  unfold Server.check_task_endpoint. cbn [tasks Tools.world_of Tools.stored_tasks].
  destruct (find (fun t => jsstring_eqb (Utils.id t) taskId) after) as [t|] eqn:Hf;
    [|reflexivity].
  exfalso. apply find_some in Hf as [H1 H2].
  apply Hin in H1 as [_ H1]. apply jsstring_eqb_eq in H2. contradiction.
Qed.

Lemma strip_prefix_app prefix s : strip_prefix prefix (prefix ++ s) = Some s.
Proof.
  induction prefix as [|x prefix IH]; simpl; [destruct s; reflexivity|].
  rewrite N.eqb_refl. exact IH.
Qed.

Lemma cut_at_start sep s : cut sep (sep ++ s) = Some ([], s).
Proof.
  destruct (sep ++ s) eqn:E; simpl; rewrite <- E, strip_prefix_app; reflexivity.
Qed.

(** A separator does not occur in a string without its first code unit. *)
Lemma cut_none x sep s :
  forallb (fun c => negb (x =? c)%N) s = true -> cut (x :: sep) s = None.
Proof.
  induction s as [|c s IH]; intros H; simpl in *; [reflexivity|].
  apply andb_prop in H as [Hc Hs].
  destruct (x =? c)%N; [discriminate|]. rewrite (IH Hs). reflexivity.
Qed.

Lemma url_safe_no_slash s :
  forallb is_url_safe s = true -> forallb (fun c => negb (47 =? c)%N) s = true.
Proof.
  intros H. rewrite forallb_forall in *. intros c Hc. specialize (H c Hc).
  destruct (47 =? c)%N eqn:E; [|reflexivity].
  apply N.eqb_eq in E. subst c. discriminate H.
Qed.

(** The handler reads the id back from the path of the request. *)
Lemma fetch_check_task_reads_id w taskId :
  forallb is_url_safe taskId = true ->
  Server.fetch_check_task w (Server.check_task_pathname taskId)
  = Some (Server.check_task_endpoint w taskId).
Proof.
  intros H. unfold Server.fetch_check_task, Server.check_task_pathname, split_second.
  rewrite strip_prefix_app, cut_at_start.
  change (str "/internal/check-task/") with (47%N :: str "internal/check-task/").
  rewrite (cut_none _ _ _ (url_safe_no_slash _ H)). reflexivity.
Qed.

(** X14: for an id of ASCII letters, digits, "-" and "_", which the URL of
    the request carries as it is, the handler of the agent answers the
    due-check of the workflow, and what the workflow concludes from the
    answer is that the escalation goes on exactly when the first stored
    task with the id is due or cannot be evaluated; it stops when the
    task is not due or not stored. *)
Theorem escalation_goes_on_iff_stored_and_due :
  forall w taskId,
    forallb is_url_safe taskId = true ->
    exists answer,
      Server.fetch_check_task w (Server.check_task_pathname taskId) = Some answer
      /\ (still_due answer = true
          <-> exists t, task_with taskId (tasks w) = Some t
                        /\ isTaskDue t w <> Normal false).
Proof.
  intros w taskId Hsafe. exists (Server.check_task_endpoint w taskId).
  split; [apply fetch_check_task_reads_id; exact Hsafe|].
  unfold Server.check_task_endpoint, task_with.
  destruct (find (fun t => jsstring_eqb (Utils.id t) taskId) (tasks w)) as [t|].
  - destruct (isTaskDue t w) as [[|]|e] eqn:E; simpl; split.
    + intros _. exists t. split; [reflexivity | congruence].
    + reflexivity.
    + discriminate.
    + intros (t' & Ht & H). inversion Ht; subst. congruence.
    + intros _. exists t. split; [reflexivity | congruence].
    + reflexivity.
  - simpl. split; [discriminate|]. intros (t & H & _). discriminate.
Qed.

Lemma escalation_goes_on_iff_stored_and_due_witness :
  let w := Tools.world_of (Some [new_task "7 days" 0]) (9 * day_ms) in
  exists answer,
    Server.fetch_check_task w (str "/internal/check-task/task-1") = Some answer
    /\ (still_due answer = true
        <-> exists t, task_with (str "task-1") (tasks w) = Some t
                      /\ isTaskDue t w <> Normal false).
Proof.
  intros w.
  apply (escalation_goes_on_iff_stored_and_due w (str "task-1")).
  reflexivity.
Defined.

(** ** Further properties of the escalation workflow *)

Ltac read_delivered :=
  repeat first [ rewrite delivered_app | rewrite delivered_sleep
               | rewrite delivered_check ];
  repeat match goal with
         | H : delivered ?e = _ |- _ => rewrite H; clear H
         end.

Ltac read_waits :=
  repeat first [ rewrite waits_app | rewrite waits_sleep | rewrite waits_check ];
  repeat match goal with
         | H : waits ?e = [] |- _ => rewrite H; clear H
         end.

Ltac read_checks :=
  repeat first [ rewrite checks_app | rewrite checks_sleep | rewrite checks_check ];
  repeat match goal with
         | H : checks ?e = [] |- _ => rewrite H; clear H
         end.

(** X15: whatever the host answers, a run started at level [initial]
    delivers a start of the sequence Initial, FollowUp, Escalation with the
    counts [d], [d + 1], [d + 3], where [d] is the count it was passed or 0
    when it was passed none: never a fourth reminder, never one twice,
    never one out of order.  It waits at most twice, passing 24 * 60 * 60
    and then 48 * 60 * 60 to [step.sleep], and checks once after each
    wait. *)
Theorem run_delivers_a_start_of_the_escalation :
  forall host payload,
    reminderLevel payload = initial ->
    exists result tr,
      TaskReminderWorkflow.run host payload [] = (Normal result, tr)
      /\ starts _ (delivered tr) (full_escalation (or_zero (daysOverdue payload)))
      /\ starts _ (waits tr) [24 * 60 * 60; 48 * 60 * 60]%Z
      /\ List.length (checks tr) = List.length (waits tr).
Proof.
  intros host payload Hlevel.
  destruct (run_initial_shape host payload Hlevel) as (result & tr & E & Hshape).
  exists result, tr. split; [exact E|].
  inversion Hshape; subst; read_send_steps; cbn [app];
    (split; [read_delivered | split; [read_waits | read_checks; read_waits]]);
    cbn [app List.length]; try reflexivity;
    unfold starts, full_escalation; cbn [TaskReminderWorkflow.send_params
                                           sp_reminderLevel sp_daysOverdue].
  all: try (eexists; reflexivity).
  all: try (exists []; reflexivity).
Qed.

Lemma run_delivers_a_start_of_the_escalation_witness :
  exists result tr,
    TaskReminderWorkflow.run (steady_host says_due) example_payload []
    = (Normal result, tr)
    /\ starts _ (delivered tr) (full_escalation 2)
    /\ starts _ (waits tr) [24 * 60 * 60; 48 * 60 * 60]%Z
    /\ List.length (checks tr) = List.length (waits tr)
    /\ delivered tr = [(initial, 2%Z); (followup, 3%Z); (escalation, 5%Z)]
    /\ waits tr = [24 * 60 * 60; 48 * 60 * 60]%Z
    /\ List.length (checks tr) = 2%nat.
Proof.
  destruct (run_delivers_a_start_of_the_escalation
              (steady_host says_due) example_payload eq_refl)
    as (result & tr & E & Hd & Hw & Hc).
  exists result, tr. split; [exact E|]. split; [exact Hd|].
  split; [exact Hw|]. split; [exact Hc|].
  vm_compute in E. inversion E. repeat split; reflexivity.
Defined.

(** The run at the other levels: its first step and nothing else. *)
Lemma run_other_outcome host payload :
  reminderLevel payload <> initial ->
  exists result tr,
    TaskReminderWorkflow.run host payload [] = (Normal result, tr)
    /\ match result with
       | TaskReminderWorkflow.RunCompleted task level =>
           task = taskId payload /\ level = reminderLevel payload
           /\ send_events
                (TaskReminderWorkflow.send_params payload (reminderLevel payload)
                   (or_zero (daysOverdue payload))) true tr
       | TaskReminderWorkflow.RunFailed task error =>
           task = taskId payload /\ send_failure error
           /\ send_events
                (TaskReminderWorkflow.send_params payload (reminderLevel payload)
                   (or_zero (daysOverdue payload))) false tr
       end.
Proof.
  intros Hlevel.
  unfold TaskReminderWorkflow.run, try_catch, bind.
  destruct (send_step host "send-reminder"
              (TaskReminderWorkflow.send_params payload (reminderLevel payload)
                 (or_zero (daysOverdue payload))) [])
    as (r1 & e1 & E1 & H1).
  rewrite E1. cbn [app]. destruct r1 as [m1|err1].
  - destruct (reminderLevel payload) eqn:L; [congruence| |];
      eexists; eexists; (split; [reflexivity|]);
      repeat split; exact H1.
  - destruct H1 as [H1 F1].
    eexists; eexists; (split; [reflexivity|]).
    split; [reflexivity|]. split; [exact F1 | exact H1].
Qed.

(** X16: a run started at level [followup] or [escalation] is one
    delivery step: it never waits and never checks the task; when it
    completes it has delivered the one reminder of its level, and when it
    fails it has delivered none and reports the refusal of the notifier. *)
Theorem run_at_other_levels_is_one_delivery :
  forall host payload,
    reminderLevel payload <> initial ->
    exists result tr,
      TaskReminderWorkflow.run host payload [] = (Normal result, tr)
      /\ waits tr = [] /\ checks tr = []
      /\ match result with
         | TaskReminderWorkflow.RunCompleted _ _ =>
             delivered tr
             = [(reminderLevel payload, or_zero (daysOverdue payload))]
         | TaskReminderWorkflow.RunFailed _ error =>
             delivered tr = [] /\ send_failure error
         end.
Proof.
  intros host payload Hlevel.
  destruct (run_other_outcome host payload Hlevel) as (result & tr & E & H).
  exists result, tr. split; [exact E|].
  destruct result as [task level|task error].
  - destruct H as (_ & _ & Hs).
    pose proof (send_events_sends _ _ _ Hs) as Hsends.
    split; [exact (sends_waits _ Hsends)|]. split; [exact (sends_checks _ Hsends)|].
    exact (send_events_delivered _ _ _ Hs).
  - destruct H as (_ & Hf & Hs).
    pose proof (send_events_sends _ _ _ Hs) as Hsends.
    split; [exact (sends_waits _ Hsends)|]. split; [exact (sends_checks _ Hsends)|].
    split; [exact (send_events_delivered _ _ _ Hs) | exact Hf].
Qed.

Lemma run_at_other_levels_is_one_delivery_witness :
  let payload :=
    {| taskId := str "task-1"; taskName := str "water plants";
       frequency := str "7 days"; reminderLevel := escalation;
       dueDate := 0; daysOverdue := None |} in
  exists result tr,
    TaskReminderWorkflow.run (steady_host says_due) payload [] = (Normal result, tr)
    /\ waits tr = [] /\ checks tr = []
    /\ match result with
       | TaskReminderWorkflow.RunCompleted _ _ => delivered tr = [(escalation, 0%Z)]
       | TaskReminderWorkflow.RunFailed _ error => delivered tr = [] /\ send_failure error
       end.
Proof.
  intros payload.
  apply (run_at_other_levels_is_one_delivery (steady_host says_due) payload).
  discriminate.
Defined.

Lemma attempts_all_refused host p :
  (forall tr rq, ok (add_reminder host tr rq) = false) ->
  forall retries tr, exists e evs,
    attempts retries (TaskReminderWorkflow.sendReminderMessage host p) tr
    = (Throw e, tr ++ evs)
    /\ List.length evs = S retries
    /\ forallb is_send evs = true
    /\ delivered evs = []
    /\ send_failure (error_message e).
Proof.
  intros Hrefuse. induction retries as [|retries IH]; intros tr;
    cbn [attempts]; unfold TaskReminderWorkflow.sendReminderMessage at 1;
    cbv zeta;
    match goal with
    | |- context [add_reminder host tr ?rq] =>
        set (request := rq);
        pose proof (Hrefuse tr request) as Hok; rewrite Hok
    end; cbn [negb].
  - eexists; eexists. split; [reflexivity|].
    split; [reflexivity|]. split; [reflexivity|].
    split; [simpl; rewrite Hok; reflexivity|]. eexists; reflexivity.
  - destruct (IH (tr ++ [SendReminder p request (add_reminder host tr request)]))
      as (e & evs & E & Hlen & Hs & Hd & Hf).
    exists e, (SendReminder p request (add_reminder host tr request) :: evs).
    split; [rewrite E, <- app_assoc; reflexivity|].
    split; [simpl; f_equal; exact Hlen|].
    split; [exact Hs|].
    split; [simpl; rewrite Hok; exact Hd | exact Hf].
Qed.

(** X17: when the notifier refuses every delivery, a run at any level
    tries the first reminder once and then as often as the host retries a
    step, and nothing else: it delivers nothing, does not wait, does not
    check, and returns the failure with the message of the refusal. *)
Theorem refused_delivery_fails_the_run_after_the_retries :
  forall host payload,
    (forall tr rq, ok (add_reminder host tr rq) = false) ->
    exists error tr,
      TaskReminderWorkflow.run host payload []
      = (Normal (TaskReminderWorkflow.RunFailed (taskId payload) error), tr)
      /\ send_failure error
      /\ List.length tr = S (step_retries host)
      /\ forallb is_send tr = true
      /\ delivered tr = [].
Proof.
  intros host payload Hrefuse.
  destruct (attempts_all_refused host
              (TaskReminderWorkflow.send_params payload (reminderLevel payload)
                 (or_zero (daysOverdue payload)))
              Hrefuse (step_retries host) [])
    as (e & evs & E & Hlen & Hs & Hd & Hf).
  exists (error_message e), evs.
  unfold TaskReminderWorkflow.run, try_catch, bind, step_do at 1.
  rewrite E. cbn [app]. unfold ret. auto.
Qed.

Lemma refused_delivery_fails_the_run_after_the_retries_witness :
  exists error tr,
    TaskReminderWorkflow.run (refusing_host 2 (str "Service Unavailable"))
      example_payload []
    = (Normal (TaskReminderWorkflow.RunFailed (str "task-1") error), tr)
    /\ send_failure error
    /\ List.length tr = 3%nat
    /\ forallb is_send tr = true
    /\ delivered tr = [].
Proof.
  apply (refused_delivery_fails_the_run_after_the_retries
           (refusing_host 2 (str "Service Unavailable")) example_payload).
  reflexivity.
Defined.

(** ** Further properties of the batch workflow *)

Lemma created_app a b : created (a ++ b) = created a ++ created b.
Proof. apply flat_map_app. Qed.

Lemma launch_pass_created host prefix :
  forall batch tr, exists results evs,
    BatchTaskReminderWorkflow.promise_all_map
      (BatchTaskReminderWorkflow.launch host prefix) batch tr
    = (Normal results, tr ++ evs)
    /\ Forall2 (launch_of prefix) batch (created evs)
    /\ List.length results = List.length batch.
Proof.
  induction batch as [|item batch IH]; intros tr.
  - exists [], []. rewrite app_nil_r. repeat split; constructor.
  - cbn [BatchTaskReminderWorkflow.promise_all_map].
    unfold BatchTaskReminderWorkflow.launch at 1. cbv zeta.
    match goal with
    | |- context [create host tr ?o] => set (options := o)
    end.
    assert (Hopt : launch_of prefix item options).
    { unfold launch_of, options. cbn [co_id co_params taskId taskName frequency
                                        reminderLevel daysOverdue].
      split; [eexists; reflexivity|]. repeat split; reflexivity. }
    destruct (create host tr options) as [instance|error] eqn:Hc;
      destruct (IH (tr ++ [Create options (create host tr options)]))
        as (results & evs & E & Hcreated & Hlen);
      rewrite Hc in E; rewrite E;
      eexists; exists (Create options (create host tr options) :: evs);
      rewrite Hc;
      (split; [rewrite <- app_assoc; reflexivity|]);
      (split; [cbn [created flat_map app]; fold (created evs);
               constructor; [exact Hopt | exact Hcreated]
              | simpl; f_equal; exact Hlen]).
Qed.

Lemma Forall2_sources {A B} (R : A -> B -> Prop) (P : A -> Prop) l1 l2 :
  Forall2 R l1 l2 -> (forall a, In a l1 -> P a) ->
  Forall (fun b => exists a, P a /\ R a b) l2.
Proof.
  induction 1 as [|a b l1 l2 Hab _ IH]; intros HP; constructor.
  - exists a. split; [apply HP; left; reflexivity | exact Hab].
  - apply IH. intros x Hx. apply HP. right; exact Hx.
Qed.

(** X18: the batch workflow never throws, it does nothing for a missing
    or empty batch, and every instance it creates, in the first pass or in
    the retry, starts at level [initial] with the id, the name, the
    frequency and the overdue count of one of the tasks of the batch; the
    id of the instance is "reminder-" or "reminder-retry-", the id of the
    task and a stamp. *)
Theorem batch_launches_initial_runs_of_its_tasks :
  forall host dueTasks,
    exists result tr,
      BatchTaskReminderWorkflow.run host dueTasks [] = (Normal result, tr)
      /\ Forall (fun o =>
                   exists t,
                     In t match dueTasks with Some l => l | None => [] end
                     /\ (launch_of "reminder-" t o \/ launch_of "reminder-retry-" t o))
           (created tr)
      /\ (match dueTasks with Some (_ :: _) => False | _ => True end -> tr = []).
Proof.
  intros host [[|item batch]|].
  1,3: eexists; eexists; (split; [reflexivity|]); split; [constructor | reflexivity].
  set (dueTasks := item :: batch).
  destruct (launch_pass_created host "reminder-" dueTasks [])
    as (results & first & E1 & C1 & N1).
  cbn [app] in E1.
  assert (H1 : Forall (fun o => exists t, In t dueTasks
                          /\ (launch_of "reminder-" t o
                              \/ launch_of "reminder-retry-" t o)) (created first)).
  { eapply Forall_impl;
      [|exact (Forall2_sources _ (fun t => In t dueTasks) _ _ C1 (fun a H => H))].
    intros o (t & Ht & Ho). exists t. auto. }
  unfold BatchTaskReminderWorkflow.run. fold dueTasks.
  change (match dueTasks with [] => _ | _ :: _ => ?k end) with k.
  unfold bind at 1.
  rewrite (step_do_returns host "process-batch" _ [] results first E1).
  unfold bind at 1.
  destruct (0 <? List.length
                   (filter (fun r => negb (BatchTaskReminderWorkflow.lr_success r))
                      results))%nat.
  - unfold bind at 1. unfold step_sleep, emit.
    unfold bind at 1. unfold BatchTaskReminderWorkflow.lift.
    pose proof (failed_tasks_by_index dueTasks results [] N1) as Hfi.
    change ([] ++ results) with results in Hfi.
    change (List.length (@nil BatchTaskReminderWorkflow.LaunchResult))
      with 0%nat in Hfi.
    rewrite Hfi.
    set (failedTasks := map fst (filter _ (combine dueTasks results))).
    assert (Hsub : forall t, In t failedTasks -> In t dueTasks).
    { intros t Ht. unfold failedTasks in Ht.
      apply in_map_iff in Ht. destruct Ht as (pair & Epair & Hin).
      destruct pair as [t' r]. simpl in Epair. subst t'.
      apply filter_In in Hin. destruct Hin as [Hin _].
      apply in_combine_l in Hin. exact Hin. }
    destruct (launch_pass_created host "reminder-retry-" failedTasks
                (first ++ [Sleep (str "retry-delay") 300]))
      as (results2 & retry & E2 & C2 & N2).
    unfold bind at 1.
    rewrite (step_do_returns host "retry-failed" _ _ results2 _ E2).
    unfold ret. eexists; eexists. split; [reflexivity|].
    split; [|intros []].
    rewrite !created_app.
    change (created [Sleep (str "retry-delay") 300]) with (@nil CreateOptions).
    rewrite app_nil_r.
    apply Forall_app. split; [exact H1|].
    eapply Forall_impl;
      [|exact (Forall2_sources _ (fun t => In t dueTasks) _ _ C2 Hsub)].
    intros o (t & Ht & Ho). exists t. auto.
  - unfold ret. eexists; eexists. split; [reflexivity|].
    split; [exact H1 | intros []].
Qed.

(** ** The reminders of the fallback *)

(** X19: for a task that is not a full day overdue, the reminder the scan
    posts itself when the workflow binding is missing has exactly the
    text of the Initial reminder of the workflow. *)
Theorem fallback_text_is_the_initial_text :
  forall task days,
    (days <= 0)%Z ->
    Scanner.fallback_text task days
    = reminderText {| sp_taskId := Utils.id task;
                      sp_taskName := Utils.name task;
                      sp_frequency := Utils.frequency task;
                      sp_reminderLevel := initial;
                      sp_daysOverdue := days |}.
Proof.
  intros task days Hd. unfold Scanner.fallback_text, reminderText. cbv zeta.
  cbn [sp_reminderLevel sp_taskName sp_frequency emoji].
  replace (0 <? days)%Z with false by (symmetry; apply Z.ltb_ge; exact Hd).
  cbn [app]. repeat f_equal.
Qed.

Lemma fallback_text_is_the_initial_text_witness :
  Scanner.fallback_text (new_task "7 days" 0) 0
  = reminderText {| sp_taskId := str "task-1";
                    sp_taskName := str "water plants";
                    sp_frequency := str "7 days";
                    sp_reminderLevel := initial;
                    sp_daysOverdue := 0 |}.
Proof.
  apply (fallback_text_is_the_initial_text (new_task "7 days" 0) 0). discriminate.
Defined.

(** ** [cleanupMessages] *)

Lemma filter_idempotent {A} (f : A -> bool) l : filter f (filter f l) = filter f l.
Proof.
  induction l as [|a l IH]; simpl; [reflexivity|].
  destruct (f a) eqn:E; simpl; [rewrite E, IH|]; auto.
Qed.

Lemma filter_all {A} (f : A -> bool) l :
  (forall a, In a l -> f a = true) -> filter f l = l.
Proof.
  induction l as [|a l IH]; intros H; simpl; [reflexivity|].
  rewrite (H a (or_introl eq_refl)), IH; [reflexivity|].
  intros x Hx. apply H. right; exact Hx.
Qed.


(** ** New tasks and tasks of frequency zero *)

(** X21: a task that [addTask] accepts is stored last, never completed,
    and first becomes due exactly one frequency after the instant it was
    added: it is not due before, and due from then on. *)
Theorem added_task_is_due_after_its_frequency :
  forall state name freq newId now frequencyMs,
    parseFrequencyToMilliseconds freq = Normal frequencyMs ->
    exists t message,
      Tools.addTask name freq newId now (Some state)
      = (Normal (Tools.TaskAdded t message),
         Some (Some (Tools.stored_tasks state ++ [t])))
      /\ Utils.id t = newId /\ lastCompleted t = None
      /\ forall w,
           isTaskDue t w = Normal (now + frequencyMs <=? Utils.Date_now w)%Z.
Proof.
  intros state nm freq newId now ms E. unfold Tools.addTask.
  destruct (parseFrequencyToDays freq) as [days|e] eqn:Ed.
  - eexists; eexists. split; [reflexivity|].
    split; [reflexivity|]. split; [reflexivity|].
    intros w. unfold isTaskDue. cbn [Utils.frequency]. rewrite E.
    cbn [referenceDate lastCompleted createdAt]. f_equal.
    destruct (ms <=? Utils.Date_now w - now)%Z eqn:H1;
      destruct (now + ms <=? Utils.Date_now w)%Z eqn:H2; try reflexivity;
      exfalso;
      [ apply Z.leb_le in H1; apply Z.leb_gt in H2; lia
      | apply Z.leb_gt in H1; apply Z.leb_le in H2; lia ].
  - exfalso.
    assert (Ht : throws (parseFrequencyToDays freq)) by (rewrite Ed; exact I).
    apply parse_days_throws_iff in Ht. apply parse_ms_throws_iff in Ht.
    rewrite E in Ht. exact Ht.
Qed.

Lemma added_task_is_due_after_its_frequency_witness :
  exists t message,
    Tools.addTask (str "laundry") (str "every 2 weeks") (str "id-2") 1000 (Some None)
    = (Normal (Tools.TaskAdded t message), Some (Some ([] ++ [t])))
    /\ Utils.id t = str "id-2" /\ lastCompleted t = None
    /\ forall w,
         isTaskDue t w = Normal (1000 + 14 * day_ms <=? Utils.Date_now w)%Z.
Proof.
  apply (added_task_is_due_after_its_frequency None (str "laundry")
           (str "every 2 weeks") (str "id-2") 1000 (14 * day_ms)).
  reflexivity.
Defined.

(** X22: a frequency of zero, which the parsers accept, makes a task due
    at every instant that is not before its reference, also at the very
    instant it is completed: completing such a task never stops its
    reminders. *)
Theorem zero_frequency_is_always_due :
  forall t now,
    parseFrequencyToMilliseconds (Utils.frequency t) = Normal 0%Z ->
    forall w,
      (now <= Utils.Date_now w)%Z ->
      isTaskDue (Tools.completed t now) w = Normal true
      /\ ((referenceDate t <= Utils.Date_now w)%Z -> isTaskDue t w = Normal true).
Proof.
  intros t now E w Hlater. unfold isTaskDue.
  cbn [Utils.frequency Tools.completed]. rewrite E.
  cbn [referenceDate lastCompleted Tools.completed]. split.
  - f_equal. apply Z.leb_le. lia.
  - intros H. f_equal. apply Z.leb_le. lia.
Qed.

Lemma zero_frequency_is_always_due_witness :
  isTaskDue (Tools.completed (new_task "0 days" 0) 5000) (world_at 5000) = Normal true
  /\ ((referenceDate (new_task "0 days" 0) <= Utils.Date_now (world_at 5000))%Z ->
      isTaskDue (new_task "0 days" 0) (world_at 5000) = Normal true).
Proof.
  apply (zero_frequency_is_always_due (new_task "0 days" 0) 5000 eq_refl (world_at 5000)).
  vm_compute. discriminate.
Defined.
